(** * slgclient map core: coordinate engine (MapUtil) and area streaming
      cache (MapProxy), embedded from the TypeScript sources.

    Number model.  JavaScript numbers that the code only ever builds from
    integers with [+], [-], [*], [%] and [Math.floor]/[Math.ceil] (cell
    coordinates, cell and area ids, sizes counted in cells, millisecond
    timestamps) are [Z].  Pixel quantities (tile size, anchor offset,
    viewport size, pixel points) are exact rationals [Q]; [Math.floor] and
    [Math.ceil] are [Qfloor] and [Qceiling].  Rounding of IEEE doubles,
    [NaN] and the infinities are outside the model, so a statement whose
    truth on the code depends on a division carries the hypothesis that the
    divisor is not zero. *)

From Stdlib Require Import ZArith QArith Qround Qabs Lia Lqa List.
From stdpp Require Import base option list list_numbers strings gmap.
Import ListNotations.

Local Open Scope Z_scope.

(** ** cc.Vec2 and cc.Size *)

Module Vec2.
Record t (A : Type) : Type := mk { x : A; y : A }.
Arguments mk {A} _ _.
Arguments x {A} _.
Arguments y {A} _.

(** [Vec2.add] and [Vec2.subtract] on pixel points (the code always calls
    them on a fresh value or on a clone, so the in-place update of the
    receiver is not observable). *)
Definition add (a b : t Q) : t Q := mk (x a + x b)%Q (y a + y b)%Q.
Definition subtract (a b : t Q) : t Q := mk (x a - x b)%Q (y a - y b)%Q.
End Vec2.

Module Size.
Record t (A : Type) : Type := mk { width : A; height : A }.
Arguments mk {A} _ _.
Arguments width {A} _.
Arguments height {A} _.
End Size.

Abbreviation v2 := Vec2.mk.

(** ** Array.prototype.indexOf on number arrays *)

Fixpoint indexOf_from (i : Z) (l : list Z) (v : Z) : Z :=
  match l with
  | [] => -1
  | a :: l' => if Z.eqb a v then i else indexOf_from (i + 1) l' v
  end.

Definition indexOf (l : list Z) (v : Z) : Z := indexOf_from 0 l v.

(** Truthiness of a JavaScript number used as a condition: every number
    except zero (and NaN, not in the model) is truthy. *)
Definition truthy (n : Z) : bool := negb (Z.eqb n 0).

(** [Math.min] and [Math.max] on pixel quantities. *)
Definition Math_min (a b : Q) : Q := if Qle_bool a b then a else b.
Definition Math_max (a b : Q) : Q := if Qle_bool a b then b else a.

(** The range of a system city by level, as both [getSideIdsForSysCity] and
    [getSysCityResData] compute it: 3 from level 8, 2 from level 5, else 1. *)
Definition sysCityDis (level : Z) : Z :=
  if level >=? 8 then 3 else if level >=? 5 then 2 else 1.

(** ** MapUtil *)

Module MapUtil.

(** What [initMapConfig] reads from the engine: the UITransform of the map
    node, the TiledMap sizes and [view.getVisibleSize()]. *)
Record TiledMap : Type := mkTiledMap {
  uit_width : Q;
  uit_height : Q;
  uit_anchorX : Q;
  uit_anchorY : Q;
  getTileSize : Size.t Q;
  getMapSize : Size.t Z
}.

(** The static fields of the class. *)
Record Config : Type := mkConfig {
  mapPixelSize : Size.t Q;
  mapOffsetPoint : Vec2.t Q;
  tileSize : Size.t Q;
  mapSize : Size.t Z;
  zeroPixelPoint : Vec2.t Q;
  areaCellSize : Size.t Z;
  areaSize : Size.t Z
}.

(** [Math.min(Math.ceil(vsize.height / tileHeight / 2) * 2 + 2, mapHeight)] *)
Definition showH (vsizeHeight tileHeight : Q) (mapHeight : Z) : Z :=
  Z.min (Qceiling (vsizeHeight / tileHeight / 2) * 2 + 2) mapHeight.

Definition initMapConfig (map : TiledMap) (vsize : Size.t Q) : Config :=
  let tile := getTileSize map in
  let msz := getMapSize map in
  let h := showH (Size.height vsize) (Size.height tile) (Size.height msz) in
  {| mapPixelSize := Size.mk (uit_width map) (uit_height map);
     mapOffsetPoint := v2 (uit_width map * uit_anchorX map)%Q
                          (uit_height map * uit_anchorY map)%Q;
     tileSize := tile;
     mapSize := msz;
     zeroPixelPoint :=
       v2 (inject_Z (Size.width msz) * Size.width tile * (1 # 2))%Q
          (inject_Z (Size.height msz) * Size.height tile
           - Size.height tile * (1 # 2))%Q;
     areaCellSize := Size.mk h h;
     areaSize :=
       Size.mk (Qceiling (inject_Z (Size.width msz) / inject_Z h))
            (Qceiling (inject_Z (Size.height msz) / inject_Z h)) |}.

Section Operations.
Variable cfg : Config.

Definition mapCellCount : Z :=
  Size.width (mapSize cfg) * Size.height (mapSize cfg).

Definition areaCount : Z :=
  Size.width (areaSize cfg) * Size.height (areaSize cfg).

Definition getIdByCellPoint (x y : Z) : Z :=
  x + y * Size.width (mapSize cfg).

(** [id % w] is the truncated remainder [Z.rem]; [Math.floor(id / w)] is
    floor division [Z.div]. *)
Definition getCellPointById (id : Z) : Vec2.t Z :=
  v2 (Z.rem id (Size.width (mapSize cfg))) (id / Size.width (mapSize cfg)).

Definition getIdByAreaPoint (x y : Z) : Z :=
  x + y * Size.width (areaSize cfg).

Definition getAreaPointById (id : Z) : Vec2.t Z :=
  v2 (Z.rem id (Size.width (areaSize cfg))) (id / Size.width (areaSize cfg)).

Definition get9GridCellIds (id : Z) : list Z :=
  let w := Size.width (mapSize cfg) in
  [ id + w - 1; id + w; id + w + 1;
    id - 1; id; id + 1;
    id - w - 1; id - w; id - w + 1 ].

Definition get9GridAreaIds (id : Z) : list Z :=
  let w := Size.width (areaSize cfg) in
  [ id + w - 1; id + w; id + w + 1;
    id - 1; id; id + 1;
    id - w - 1; id - w; id - w + 1 ].

Definition isVaildCellPoint (point : Vec2.t Z) : bool :=
  (0 <=? Vec2.x point) && (Vec2.x point <? Size.width (mapSize cfg))
  && (0 <=? Vec2.y point) && (Vec2.y point <? Size.height (mapSize cfg)).

Definition isVaildAreaPoint (point : Vec2.t Z) : bool :=
  (0 <=? Vec2.x point) && (Vec2.x point <? Size.width (areaSize cfg))
  && (0 <=? Vec2.y point) && (Vec2.y point <? Size.height (areaSize cfg)).

Definition isVaildAreaId (id : Z) : bool :=
  (0 <=? id) && (id <? areaCount).

(** The loop pushes, in order, every id of the raw nine-grid that passes
    [isVaildAreaId]. *)
Definition get9GridVaildAreaIds (id : Z) : list Z :=
  List.filter isVaildAreaId (get9GridAreaIds id).

Definition getAreaPointByCellPoint (x y : Z) : Vec2.t Z :=
  v2 (x / Size.width (areaCellSize cfg)) (y / Size.height (areaCellSize cfg)).

Definition getAreaIdByCellPoint (x y : Z) : Z :=
  let point := getAreaPointByCellPoint x y in
  getIdByAreaPoint (Vec2.x point) (Vec2.y point).

Definition getStartCellPointByAreaPoint (x y : Z) : Vec2.t Z :=
  v2 (x * Size.width (areaCellSize cfg)) (y * Size.height (areaCellSize cfg)).

Definition getEndCellPointByAreaPoint (x y : Z) : Vec2.t Z :=
  v2 ((x + 1) * Size.width (areaCellSize cfg))
     ((y + 1) * Size.height (areaCellSize cfg)).

Definition worldPixelToMapCellPoint (point : Vec2.t Q) : Vec2.t Z :=
  let tw := Size.width (tileSize cfg) in
  let th := Size.height (tileSize cfg) in
  v2 (Qfloor ((1 # 2) * inject_Z (Size.height (mapSize cfg))
              + Vec2.x point / tw - Vec2.y point / th)%Q)
     (Qfloor ((3 # 2) * inject_Z (Size.width (mapSize cfg))
              - Vec2.x point / tw - Vec2.y point / th)%Q).

Definition mapCellToWorldPixelPoint (point : Vec2.t Z) : Vec2.t Q :=
  v2 (Vec2.x (zeroPixelPoint cfg)
      - inject_Z (Vec2.y point - Vec2.x point)
        * Size.width (tileSize cfg) * (1 # 2))%Q
     (Vec2.y (zeroPixelPoint cfg)
      - inject_Z (Vec2.x point + Vec2.y point)
        * Size.height (tileSize cfg) * (1 # 2))%Q.

Definition mapCellToPixelPoint (point : Vec2.t Z) : Vec2.t Q :=
  let worldPoint := mapCellToWorldPixelPoint point in
  Vec2.subtract worldPoint (mapOffsetPoint cfg).

Definition mapPixelToCellPoint (point : Vec2.t Q) : Vec2.t Z :=
  let worldPoint := Vec2.add point (mapOffsetPoint cfg) in
  worldPixelToMapCellPoint worldPoint.

Definition getSideIdsForRoleCity (id : Z) : list Z :=
  let w := Size.width (mapSize cfg) in
  [ id + w * 2 - 2; id + w * 2 - 1; id + w * 2; id + w * 2 + 1; id + w * 2 + 2;
    id + w - 2; id + w + 2;
    id - 2; id + 2;
    id - w - 2; id - w + 2;
    id - w * 2 - 2; id - w * 2 - 1; id - w - 1; id - w * 2 + 1; id - w * 2 + 2 ].

(** The four loops run over [x - dis .. x + dis] and [y - dis .. y + dis]
    and push, in order, the upper, lower, left and right edge. *)
Definition getSideIdsForSysCity (x y level : Z) : list Z :=
  let dis := sysCityDis level in
  ((fun tx => getIdByCellPoint tx (y + dis)) <$> seqZ (x - dis) (2 * dis + 1))
  ++ ((fun tx => getIdByCellPoint tx (y - dis)) <$> seqZ (x - dis) (2 * dis + 1))
  ++ ((fun ty => getIdByCellPoint (x - dis) ty) <$> seqZ (y - dis) (2 * dis + 1))
  ++ ((fun ty => getIdByCellPoint (x + dis) ty) <$> seqZ (y - dis) (2 * dis + 1)).

(** One iteration of the loop of [getVaildAreaIdsByPixelPoints]. *)
Definition pushVaildAreaId (lst : list Z) (p : Vec2.t Q) : list Z :=
  let cellPoint := mapPixelToCellPoint p in
  let areaPoint :=
    getAreaPointByCellPoint (Vec2.x cellPoint) (Vec2.y cellPoint) in
  let index := getIdByAreaPoint (Vec2.x areaPoint) (Vec2.y areaPoint) in
  if isVaildAreaId index && (indexOf lst index =? -1)
  then lst ++ [index] else lst.

Definition getVaildAreaIdsByPixelPoints (points : list (Vec2.t Q)) : list Z :=
  fold_left pushVaildAreaId points [].

End Operations.

End MapUtil.

(** ** MapAreaData *)

Module MapAreaData.

Definition MAX_TIME : Z := 10000.

Record t : Type := mk {
  id : Z;
  x : Z;
  y : Z;
  startCellX : Z;
  startCellY : Z;
  endCellX : Z;
  endCellY : Z;
  len : Z;
  qryStartTime : Z
}.

(** [new MapAreaData()]: every field starts at 0. *)
Definition new : t := mk 0 0 0 0 0 0 0 0 0.

Definition set_qryStartTime (v : Z) (this : t) : t :=
  mk (id this) (x this) (y this) (startCellX this) (startCellY this)
     (endCellX this) (endCellY this) (len this) v.

(** [nowTime] is the value read from [Date.now()].  The result is the
    returned boolean and the descriptor after the call. *)
Definition checkAndUpdateQryTime (nowTime : Z) (this : t) : bool * t :=
  if nowTime - qryStartTime this >=? MAX_TIME
  then (true, set_qryStartTime nowTime this)
  else (false, this).

(** [other] may be [null]. *)
Definition equals (this : t) (other : option t) : bool :=
  match other with
  | None => false
  | Some o => id this =? id o
  end.

Definition fuzzyEquals (this : t) (other : option t) (variance : Z) : bool :=
  match other with
  | None => false
  | Some o =>
      if (x this - variance <=? x o) && (x o <=? x this + variance)
      then (y this - variance <=? y o) && (y o <=? y this + variance)
      else false
  end.

End MapAreaData.

(** ** MapResType, MapResData, MapTagPos *)

Module MapResType.

Definition SYS_FORTRESS : Z := 50.
Definition SYS_CITY : Z := 51.
Definition WOOD : Z := 52.
Definition IRON : Z := 53.
Definition STONE : Z := 54.
Definition GRAIN : Z := 55.
Definition FORTRESS : Z := 56.

End MapResType.

Module MapResData.

Record t : Type := mk {
  id : Z;
  type : Z;
  level : Z;
  x : Z;
  y : Z
}.

End MapResData.

Module MapTagPos.

Record t : Type := mk {
  x : Z;
  y : Z;
  name : string
}.

End MapTagPos.

(** ** MapProxy *)

Module MapProxy.

(** The two notifications sent through [EventMgr.emit]. *)
Inductive LogicEvent : Type :=
| mapEenterChange (point : Vec2.t Z)
| mapShowAreaChange (point : Vec2.t Z) (centerAreaId : Z)
                    (addIds removeIds : list Z).

(** The fields of the proxy that the area cache reads and writes.
    [mapAreaDatas] is a JavaScript array read and written by index
    ([arr[id]]); a key that is no array index (a negative id, or an id
    from 2^32 - 1 on) is kept as an ordinary property, so the store is a
    finite map on [Z]. *)
Record t : Type := mk {
  curCenterPoint : option (Vec2.t Z);
  curCenterAreaId : Z;
  mapAreaDatas : gmap Z MapAreaData.t;
  qryAreaIds : list Z
}.

(** Field initialisers of the class. *)
Definition new : t := mk None (-1) ∅ [].

Definition set_mapAreaDatas (m : gmap Z MapAreaData.t) (this : t) : t :=
  mk (curCenterPoint this) (curCenterAreaId this) m (qryAreaIds this).

(** Assigning [length = n] drops the array elements at the indices [>= n].
    Array indices are the integers 0 .. 2^32 - 2: a negative key or a key
    from 2^32 - 1 on is an ordinary property, no element, and stays.  A
    length outside 0 .. 2^32 - 1 is refused with a RangeError and the array
    stays as it is. *)
Definition truncate (n : Z) (m : gmap Z MapAreaData.t) : gmap Z MapAreaData.t :=
  if (0 <=? n) && (n <=? 4294967295)
  then filter
         (fun kv : Z * MapAreaData.t =>
            kv.1 < n \/ kv.1 < 0 \/ 4294967295 <= kv.1) m
  else m.

(** The intermediate lists of one area transition. *)
Record AreaChange : Type := mkAreaChange {
  oldIds : list Z;
  addIds : list Z;
  removeIds : list Z;
  firstAreaIds : option (list Z)
}.

(** [l.indexOf(v) == -1] *)
Definition absent (l : list Z) (v : Z) : bool := indexOf l v =? -1.

(** [firstAreaIds && firstAreaIds.length > 0] *)
Definition hasFirst (firstAreaIds : option (list Z)) : bool :=
  match firstAreaIds with
  | Some l => (0 <? Z.of_nat (length l))
  | None => false
  end.

Definition firstList (firstAreaIds : option (list Z)) : list Z :=
  match firstAreaIds with
  | Some l => l
  | None => []
  end.

Section Operations.
Variable cfg : MapUtil.Config.
(** [view.getVisibleSize()] *)
Variable vsize : Size.t Q.

Definition initData (this : t) : t :=
  set_mapAreaDatas (truncate (MapUtil.areaCount cfg) (mapAreaDatas this)) this.

Definition clearData (this : t) : t :=
  mk None (-1) (truncate 0 (mapAreaDatas this)) [].

(** The descriptor built when [_mapAreaDatas[id]] is undefined. *)
Definition makeAreaData (id : Z) : MapAreaData.t :=
  let point := MapUtil.getAreaPointById cfg id in
  let startCellPoint :=
    MapUtil.getStartCellPointByAreaPoint cfg (Vec2.x point) (Vec2.y point) in
  {| MapAreaData.id := id;
     MapAreaData.x := Vec2.x point;
     MapAreaData.y := Vec2.y point;
     MapAreaData.startCellX := Vec2.x startCellPoint;
     MapAreaData.startCellY := Vec2.y startCellPoint;
     MapAreaData.endCellX :=
       Vec2.x startCellPoint + Size.width (MapUtil.areaCellSize cfg);
     MapAreaData.endCellY :=
       Vec2.y startCellPoint + Size.width (MapUtil.areaCellSize cfg);
     MapAreaData.len := Size.width (MapUtil.areaCellSize cfg);
     MapAreaData.qryStartTime := 0 |}.

(** Returns the descriptor and the proxy after the call. *)
Definition getMapAreaData (id : Z) (this : t) : MapAreaData.t * t :=
  match mapAreaDatas this !! id with
  | None =>
      let data := makeAreaData id in
      (data, set_mapAreaDatas (<[id := data]> (mapAreaDatas this)) this)
  | Some data => (data, this)
  end.

(** A caller that holds the descriptor stored under [id] and runs its
    throttle check: the descriptor is a shared object, so the update is
    seen through the store. *)
Definition checkAndUpdateQryTimeOf (id nowTime : Z) (this : t) : option (bool * t) :=
  match mapAreaDatas this !! id with
  | None => None
  | Some data =>
      let '(ok, data') := MapAreaData.checkAndUpdateQryTime nowTime data in
      Some (ok, set_mapAreaDatas (<[id := data']> (mapAreaDatas this)) this)
  end.

(** The five pixel points handed to [getVaildAreaIdsByPixelPoints]: the
    centre, then left-top, left-down, right-top and right-down corners. *)
Definition screenPoints (pixelPoint : Vec2.t Q) : list (Vec2.t Q) :=
  let hw := (Size.width vsize * (1 # 2))%Q in
  let hh := (Size.height vsize * (1 # 2))%Q in
  [ pixelPoint;
    Vec2.add pixelPoint (v2 (- hw)%Q hh);
    Vec2.add pixelPoint (v2 (- hw)%Q (- hh)%Q);
    Vec2.add pixelPoint (v2 hw hh);
    Vec2.add pixelPoint (v2 hw (- hh)%Q) ].

(** Full refresh branch (first load, or the areas are far apart). *)
Definition fullChange (newIds : list Z) (pixelPoint : Vec2.t Q) : AreaChange :=
  {| oldIds := [];
     addIds := newIds;
     removeIds := [];
     firstAreaIds :=
       Some (MapUtil.getVaildAreaIdsByPixelPoints cfg (screenPoints pixelPoint)) |}.

(** Incremental branch. *)
Definition incrementalChange (curCenterAreaId : Z) (areaData : MapAreaData.t)
    (newIds : list Z) : AreaChange :=
  let oldIds := MapUtil.get9GridVaildAreaIds cfg curCenterAreaId in
  let addIds := List.filter (absent oldIds) newIds in
  let removeIds := List.filter (absent newIds) oldIds in
  {| oldIds := oldIds;
     addIds := addIds;
     removeIds := removeIds;
     firstAreaIds :=
       if truthy (indexOf addIds (MapAreaData.id areaData))
       then Some [MapAreaData.id areaData]
       else None |}.

Definition otherAreaIds (c : AreaChange) : list Z :=
  if hasFirst (firstAreaIds c)
  then List.filter (absent (firstList (firstAreaIds c))) (addIds c)
  else addIds c.

Definition qryIndexs (c : AreaChange) : list Z :=
  if hasFirst (firstAreaIds c)
  then firstList (firstAreaIds c) ++ otherAreaIds c
  else otherAreaIds c.

(** [_curCenterPoint == null || _curCenterPoint.x != point.x
     || _curCenterPoint.y != point.y] *)
Definition centerDiffers (cur : option (Vec2.t Z)) (point : Vec2.t Z) : bool :=
  match cur with
  | None => true
  | Some c =>
      negb (Vec2.x c =? Vec2.x point) || negb (Vec2.y c =? Vec2.y point)
  end.

(** The body of the inner [if]: the area transition.  [this] already
    holds the new centre point.  Returns the change computed, and the
    proxy after the transition. *)
Definition areaTransition (areaId : Z) (pixelPoint : Vec2.t Q) (this : t)
    : AreaChange * t :=
  let '(areaData, this1) := getMapAreaData areaId this in
  let newIds := MapUtil.get9GridVaildAreaIds cfg (MapAreaData.id areaData) in
  let '(change, this2) :=
    if curCenterAreaId this1 =? -1
    then (fullChange newIds pixelPoint, this1)
    else
      let '(prev, this2) := getMapAreaData (curCenterAreaId this1) this1 in
      if negb (MapAreaData.fuzzyEquals prev (Some areaData) 3)
      then (fullChange newIds pixelPoint, this2)
      else (incrementalChange (curCenterAreaId this2) areaData newIds, this2) in
  (change,
   mk (curCenterPoint this2) areaId (mapAreaDatas this2)
      (qryAreaIds this2 ++ qryIndexs change)).

(** Returns the boolean result, the proxy after the call and the
    notifications emitted, in order. *)
Definition setCurCenterPoint (point : Vec2.t Z) (pixelPoint : Vec2.t Q) (this : t)
    : bool * t * list LogicEvent :=
  if centerDiffers (curCenterPoint this) point then
    let this1 :=
      mk (Some point) (curCenterAreaId this) (mapAreaDatas this) (qryAreaIds this) in
    let areaPoint :=
      MapUtil.getAreaPointByCellPoint cfg (Vec2.x point) (Vec2.y point) in
    let areaId :=
      MapUtil.getIdByAreaPoint cfg (Vec2.x areaPoint) (Vec2.y areaPoint) in
    if (curCenterAreaId this1 =? -1) || negb (curCenterAreaId this1 =? areaId)
    then
      let '(change, this2) := areaTransition areaId pixelPoint this1 in
      (true, this2,
       [ mapEenterChange point;
         mapShowAreaChange point (curCenterAreaId this2)
                           (addIds change) (removeIds change) ])
    else (true, this1, [ mapEenterChange point ])
  else (false, this, []).

End Operations.

(** *** Resource table.  The methods below read and write only
    [_mapResDatas] and [_mapSysCityResDatas]; the two arrays are passed and
    returned explicitly.  [jsonData.list] holds one [type, level] entry per
    cell. *)

Definition makeResData (w : Z) (i : nat) (entry : Z * Z) : MapResData.t :=
  {| MapResData.id := Z.of_nat i;
     MapResData.type := entry.1;
     MapResData.level := entry.2;
     MapResData.x := Z.rem (Z.of_nat i) w;
     MapResData.y := Z.of_nat i / w |}.

(** Returns [_mapResDatas] and [_mapSysCityResDatas]. *)
Definition initMapResConfig (w : Z) (entries : list (Z * Z))
    : list MapResData.t * list MapResData.t :=
  let mapResDatas := imap (makeResData w) entries in
  (mapResDatas,
   List.filter (fun data => MapResData.type data =? MapResType.SYS_CITY) mapResDatas).

(** [_mapResDatas[id]]; [None] is [undefined]. *)
Definition getResData (id : Z) (mapResDatas : list MapResData.t)
    : option MapResData.t :=
  if 0 <=? id then mapResDatas !! Z.to_nat id else None.

Definition hasResDatas (mapResDatas : list MapResData.t) : bool :=
  0 <? Z.of_nat (length mapResDatas).

(** The test of the loop body of [getSysCityResData]. *)
Definition inSysCityRange (x y : Z) (resData : MapResData.t) : bool :=
  let dis := sysCityDis (MapResData.level resData) in
  (dis >=? Z.abs (x - MapResData.x resData))
  && (dis >=? Z.abs (y - MapResData.y resData)).

(** [None] is [null]. *)
Definition getSysCityResData (x y : Z) (mapSysCityResDatas : list MapResData.t)
    : option MapResData.t :=
  List.find (inSysCityRange x y) mapSysCityResDatas.

(** *** Position tags.  The methods below read and write only
    [_mapPosTags], passed and returned explicitly. *)

Definition updateMapPosTags (posTag : list MapTagPos.t) : list MapTagPos.t :=
  (fun data => MapTagPos.mk (MapTagPos.x data) (MapTagPos.y data) (MapTagPos.name data))
    <$> posTag.

Definition removeMapPosTag (x y : Z) (mapPosTags : list MapTagPos.t)
    : list MapTagPos.t :=
  List.filter
    (fun tag => negb (MapTagPos.x tag =? x) || negb (y =? MapTagPos.y tag))
    mapPosTags.

Definition isPosTag (x y : Z) (mapPosTags : list MapTagPos.t) : bool :=
  existsb (fun tag => (MapTagPos.x tag =? x) && (MapTagPos.y tag =? y)) mapPosTags.

(** [ok] starts true and is cleared by every tag at the same position. *)
Definition addMapPosTag (x y : Z) (name : string) (mapPosTags : list MapTagPos.t)
    : list MapTagPos.t :=
  let tag := MapTagPos.mk x y name in
  let ok :=
    fold_left
      (fun ok tag => if (MapTagPos.x tag =? x) && (MapTagPos.y tag =? y)
                     then false else ok)
      mapPosTags true in
  if ok then mapPosTags ++ [tag] else mapPosTags.

End MapProxy.

(** ** MapLogic: camera position, touch state and the calls into the proxy.
    The camera node position is kept as its x and y; culling updates and
    zooming are engine calls and not part of the model. *)

Module MapLogic.

Record t : Type := mk {
  isTouch : bool;
  isMove : bool;
  cameraPosition : Vec2.t Q;
  maxMapX : Q;
  maxMapY : Q
}.

(** Notifications seen while a handler runs: those of the proxy and the two
    emitted by [onTouchEnd]. *)
Inductive Event : Type :=
| proxyEvent (e : MapProxy.LogicEvent)
| touchMap (mapPoint : Vec2.t Z) (clickCenterPoint : Vec2.t Q)
| moveMap.

Section Handlers.
Variable cfg : MapUtil.Config.
(** [view.getVisibleSize()] *)
Variable vsize : Size.t Q.
(** The UITransform of the tiled map node. *)
Variable map : MapUtil.TiledMap.
(** The anchor of the UITransform of the canvas node. *)
Variable cuit_anchorX cuit_anchorY : Q.

(** The part of [setTiledMap] that computes the camera bounds. *)
Definition setTiledMap (this : t) : t :=
  mk (isTouch this) (isMove this) (cameraPosition this)
     ((MapUtil.uit_width map - Size.width vsize) * (1 # 2))%Q
     ((MapUtil.uit_height map - Size.height vsize) * (1 # 2))%Q.

(** [Math.min(max, Math.max(-max, v))] *)
Definition clamp (max v : Q) : Q := Math_min max (Math_max (- max)%Q v).

Definition setCenterMapCellPoint (point : Vec2.t Z) (pixelPoint : Vec2.t Q)
    (proxy : MapProxy.t) : MapProxy.t * list Event :=
  let r := MapProxy.setCurCenterPoint cfg vsize point pixelPoint proxy in
  (r.1.2, proxyEvent <$> r.2).

Definition onTouchBegan (this : t) : t :=
  mk true false (cameraPosition this) (maxMapX this) (maxMapY this).

Definition onTouchCancel (this : t) : t :=
  mk false false (cameraPosition this) (maxMapX this) (maxMapY this).

Definition onTouchMove (delta : Vec2.t Q) (this : t) (proxy : MapProxy.t)
    : t * MapProxy.t * list Event :=
  if isTouch this then
    if negb (Qeq_bool (Vec2.x delta) 0) || negb (Qeq_bool (Vec2.y delta) 0) then
      let pixelPoint :=
        v2 (clamp (maxMapX this) (Vec2.x (cameraPosition this) - Vec2.x delta)%Q)
           (clamp (maxMapY this) (Vec2.y (cameraPosition this) - Vec2.y delta)%Q) in
      let this1 := mk (isTouch this) true pixelPoint (maxMapX this) (maxMapY this) in
      let '(proxy1, events) :=
        setCenterMapCellPoint (MapUtil.mapPixelToCellPoint cfg pixelPoint)
          pixelPoint proxy in
      (this1, proxy1, events)
    else (this, proxy, [])
  else (this, proxy, []).

Definition viewPointToWorldPoint (point : Vec2.t Q) (this : t) : Vec2.t Q :=
  let cameraWorldX :=
    (MapUtil.uit_width map * MapUtil.uit_anchorX map
     - Size.width vsize * cuit_anchorX + Vec2.x (cameraPosition this))%Q in
  let cameraWorldY :=
    (MapUtil.uit_height map * MapUtil.uit_anchorY map
     - Size.height vsize * cuit_anchorY + Vec2.y (cameraPosition this))%Q in
  v2 (Vec2.x point + cameraWorldX)%Q (Vec2.y point + cameraWorldY)%Q.

Definition worldToMapPixelPoint (point : Vec2.t Q) : Vec2.t Q :=
  v2 (Vec2.x point - MapUtil.uit_width map * MapUtil.uit_anchorX map)%Q
     (Vec2.y point - MapUtil.uit_height map * MapUtil.uit_anchorY map)%Q.

(** [touchLocation] is [event.touch.getUILocation()]. *)
Definition onTouchEnd (touchLocation : Vec2.t Q) (this : t) : t * list Event :=
  let this1 := mk false (isMove this) (cameraPosition this) (maxMapX this) (maxMapY this) in
  let events :=
    if negb (isMove this1) then
      let touchLocation1 := viewPointToWorldPoint touchLocation this1 in
      let mapPoint := MapUtil.worldPixelToMapCellPoint cfg touchLocation1 in
      let clickCenterPoint := MapUtil.mapCellToPixelPoint cfg mapPoint in
      [ touchMap mapPoint clickCenterPoint ]
    else [ moveMap ] in
  (mk (isTouch this1) false (cameraPosition this1) (maxMapX this1) (maxMapY this1),
   events).

Definition curCameraPoint (this : t) : Vec2.t Q :=
  v2 (Vec2.x (cameraPosition this)) (Vec2.y (cameraPosition this)).

Definition toCameraPoint (point : Vec2.t Z) (this : t) : Vec2.t Q :=
  let pixelPoint := MapUtil.mapCellToPixelPoint cfg point in
  v2 (clamp (maxMapX this) (Vec2.x pixelPoint))
     (clamp (maxMapY this) (Vec2.y pixelPoint)).

Definition scrollToMapPoint (point : Vec2.t Z) (this : t) (proxy : MapProxy.t)
    : t * MapProxy.t * list Event :=
  let temp := toCameraPoint point this in
  let pixelPoint := MapUtil.mapCellToPixelPoint cfg point in
  let this1 :=
    mk (isTouch this) (isMove this) (v2 (Vec2.x temp) (Vec2.y temp))
       (maxMapX this) (maxMapY this) in
  let '(proxy1, events) := setCenterMapCellPoint point pixelPoint proxy in
  (this1, proxy1, events).

End Handlers.

End MapLogic.

(** ** Invariant of the descriptor store and reachable proxy states *)

Module Invariant.

(** Every stored descriptor is the one [getMapAreaData] builds for its
    key, up to the query timestamp (the only field written afterwards). *)
Definition store_ok (cfg : MapUtil.Config) (m : gmap Z MapAreaData.t) : Prop :=
  map_Forall
    (fun id d => MapAreaData.set_qryStartTime 0 d = MapProxy.makeAreaData cfg id)
    m.

(** The descriptor [getMapAreaData] hands out for [id] over store [m]:
    the stored one, or a fresh one. *)
Definition areaDataOf (cfg : MapUtil.Config) (m : gmap Z MapAreaData.t) (id : Z)
    : MapAreaData.t :=
  default (MapProxy.makeAreaData cfg id) (m !! id).

(** The states a proxy goes through once the map configuration is fixed. *)
Inductive reachable (cfg : MapUtil.Config) (vsize : Size.t Q) : MapProxy.t -> Prop :=
| reach_new : reachable cfg vsize MapProxy.new
| reach_initData this :
    reachable cfg vsize this ->
    reachable cfg vsize (MapProxy.initData cfg this)
| reach_clearData this :
    reachable cfg vsize this ->
    reachable cfg vsize (MapProxy.clearData this)
| reach_getMapAreaData this id :
    reachable cfg vsize this ->
    reachable cfg vsize (MapProxy.getMapAreaData cfg id this).2
| reach_checkAndUpdateQryTime this id nowTime ok this' :
    reachable cfg vsize this ->
    MapProxy.checkAndUpdateQryTimeOf id nowTime this = Some (ok, this') ->
    reachable cfg vsize this'
| reach_setCurCenterPoint this point pixelPoint :
    reachable cfg vsize this ->
    reachable cfg vsize
      (MapProxy.setCurCenterPoint cfg vsize point pixelPoint this).1.2.

(** The centre area stored is the area of the centre cell stored. *)
Definition center_ok (cfg : MapUtil.Config) (this : MapProxy.t) : Prop :=
  match MapProxy.curCenterPoint this with
  | None => MapProxy.curCenterAreaId this = -1
  | Some c =>
      MapProxy.curCenterAreaId this
      = MapUtil.getAreaIdByCellPoint cfg (Vec2.x c) (Vec2.y c)
  end.

(** A collaborator that runs the throttle check of one descriptor at the
    times [ts], in order: the times at which the check permitted a query,
    and the descriptor at the end. *)
Fixpoint runQueries (ts : list Z) (d : MapAreaData.t) : list Z * MapAreaData.t :=
  match ts with
  | [] => ([], d)
  | nowTime :: ts' =>
      let '(ok, d') := MapAreaData.checkAndUpdateQryTime nowTime d in
      let '(permitted, d'') := runQueries ts' d' in
      (if ok then nowTime :: permitted else permitted, d'')
  end.

End Invariant.

(** ** The example configuration: tiles of 256x128 pixels, a map of 20x20
       cells anchored at its centre, a viewport of 1136x640 pixels *)

Module Example.

Definition map : MapUtil.TiledMap :=
  MapUtil.mkTiledMap 5120 2560 (1 # 2) (1 # 2) (Size.mk 256%Q 128%Q) (Size.mk 20 20).

Definition vsize : Size.t Q := Size.mk 1136%Q 640%Q.

Definition cfg : MapUtil.Config := MapUtil.initMapConfig map vsize.

(** The proxy after a first call that centres the view on cell (15,9),
    in area 4 (area coordinates (1,1)). *)
Definition centred_15_9 : MapProxy.t :=
  (MapProxy.setCurCenterPoint cfg vsize (v2 15 9)
     (MapUtil.mapCellToPixelPoint cfg (v2 15 9)) MapProxy.new).1.2.

(** A larger map of 80x80 cells under the same viewport: area side 8, area
    grid 10x10. *)
Definition map80 : MapUtil.TiledMap :=
  MapUtil.mkTiledMap 20480 10240 (1 # 2) (1 # 2) (Size.mk 256%Q 128%Q) (Size.mk 80 80).

Definition cfg80 : MapUtil.Config := MapUtil.initMapConfig map80 vsize.

(** The proxy of the larger map after a first call that centres the view on
    cell (39,36), in area 44 (area coordinates (4,4)). *)
Definition centred_39_36 : MapProxy.t :=
  (MapProxy.setCurCenterPoint cfg80 vsize (v2 39 36)
     (MapUtil.mapCellToPixelPoint cfg80 (v2 39 36)) MapProxy.new).1.2.

(** A descriptor last queried at 1_700_000_000_000 ms. *)
Definition queried : MapAreaData.t :=
  MapAreaData.set_qryStartTime 1700000000000 (MapProxy.makeAreaData cfg 4).

End Example.

(** Reduce the field accesses on a configuration built by [initMapConfig]
    and on points, leaving the rational arithmetic as it is. *)
Ltac cfg_fields :=
  unfold MapUtil.initMapConfig, Vec2.add, Vec2.subtract;
  cbn [MapUtil.mapPixelSize MapUtil.mapOffsetPoint MapUtil.tileSize
       MapUtil.mapSize MapUtil.zeroPixelPoint MapUtil.areaCellSize
       MapUtil.areaSize Vec2.x Vec2.y Size.width Size.height].

(** * Properties *)

(** ** Arithmetic helpers *)

Lemma inject_Z_sub (a b : Z) : inject_Z (a - b) = (inject_Z a - inject_Z b)%Q.
Proof.
  unfold Z.sub, Qminus. now rewrite inject_Z_plus, inject_Z_opp.
Qed.

Lemma Qfloor_unique (q : Q) (n : Z) :
  (inject_Z n <= q)%Q -> (q < inject_Z (n + 1))%Q -> Qfloor q = n.
Proof.
  intros Hlo Hhi.
  pose proof (Qfloor_le q) as Hf1.
  pose proof (Qlt_floor q) as Hf2.
  assert (Qfloor q < n + 1).
  { rewrite Zlt_Qlt. eapply Qle_lt_trans; eassumption. }
  assert (n < Qfloor q + 1).
  { rewrite Zlt_Qlt. eapply Qle_lt_trans; eassumption. }
  lia.
Qed.

Lemma Qfloor_half (q : Q) (n : Z) :
  (q == inject_Z n + (1 # 2))%Q -> Qfloor q = n.
Proof.
  intros Hq. apply Qfloor_unique.
  - rewrite Hq. lra.
  - rewrite Hq, inject_Z_plus. change (inject_Z 1) with 1%Q. lra.
Qed.

Lemma Qceiling_half_double (q : Q) : Qceiling q <= Qceiling (q / 2) * 2.
Proof.
  pose proof (Qle_ceiling (q / 2)) as Hc.
  assert (Hq : (q <= inject_Z (Qceiling (q / 2) * 2))%Q).
  { rewrite inject_Z_mult.
    assert (Hd : (q == 2 * (q / 2))%Q) by field.
    change (inject_Z 2) with 2%Q.
    lra. }
  apply Qceiling_resp_le in Hq. rewrite Qceiling_Z in Hq. exact Hq.
Qed.

(** ** Area side length chosen by [initMapConfig] *)

(** C3, as stated, fails: on a map of 6x6 cells with tiles 128 pixels high
    and a viewport 640 pixels high one screen needs ceil(640/128) = 5 cells,
    and the area side is clamped to the map height 6, which is less than
    5 + 2. *)
Lemma initMapConfig_areaSide_clamped :
  let map := MapUtil.mkTiledMap 1536 768 (1 # 2) (1 # 2)
               (Size.mk 256%Q 128%Q) (Size.mk 6 6) in
  let side :=
    Size.height (MapUtil.areaCellSize (MapUtil.initMapConfig map (Size.mk 1136%Q 640%Q))) in
  side = 6 /\
  ~ (Z.even side = true /\ Qceiling (640 / 128) + 2 <= side /\ side <= 6).
Proof.
  split; [reflexivity |].
  intros (_ & Hcover & _). vm_compute in Hcover. now apply Hcover.
Qed.

(** With an odd map height the clamped side is odd as well. *)
Lemma initMapConfig_areaSide_odd :
  let map := MapUtil.mkTiledMap 1280 640 (1 # 2) (1 # 2)
               (Size.mk 256%Q 128%Q) (Size.mk 5 5) in
  let side :=
    Size.height (MapUtil.areaCellSize (MapUtil.initMapConfig map (Size.mk 1136%Q 640%Q))) in
  side = 5 /\ Z.even side = false.
Proof.
  split; reflexivity.
Qed.

(** C3, amended: for a tile height that is not zero the area side never
    exceeds the map's cell height, and whenever the unclamped value
    ceil(viewportHeight / tileHeight / 2) * 2 + 2 fits in the map, the area
    side is that value, is even and is at least 2 greater than
    ceil(viewportHeight / tileHeight). *)
Theorem initMapConfig_areaSide (map : MapUtil.TiledMap) (vsize : Size.t Q) :
  ~ (Size.height (MapUtil.getTileSize map) == 0)%Q ->
  let cfg := MapUtil.initMapConfig map vsize in
  let side := Size.height (MapUtil.areaCellSize cfg) in
  let mapH := Size.height (MapUtil.getMapSize map) in
  let screen := (Size.height vsize / Size.height (MapUtil.getTileSize map))%Q in
  Size.width (MapUtil.areaCellSize cfg) = side /\
  side <= mapH /\
  (Qceiling (screen / 2) * 2 + 2 <= mapH ->
   side = Qceiling (screen / 2) * 2 + 2 /\
   Z.even side = true /\
   Qceiling screen + 2 <= side).
Proof.
  intros _. cbn. unfold MapUtil.showH.
  set (q := (Size.height vsize / Size.height (MapUtil.getTileSize map))%Q).
  pose proof (Qceiling_half_double q) as Hq.
  split; [reflexivity |]. split; [lia |].
  intros Hfit. rewrite Z.min_l by exact Hfit.
  split; [reflexivity |]. split; [| lia].
  rewrite Z.even_add, Z.even_mul. cbn.
  now rewrite Bool.orb_true_r.
Qed.

Lemma initMapConfig_areaSide_witness :
  ~ (Size.height (MapUtil.getTileSize Example.map) == 0)%Q /\
  Size.height (MapUtil.areaCellSize Example.cfg) = 8 /\
  Z.even (Size.height (MapUtil.areaCellSize Example.cfg)) = true.
Proof.
  assert (Hth : ~ (Size.height (MapUtil.getTileSize Example.map) == 0)%Q)
    by (vm_compute; discriminate).
  split; [exact Hth |].
  destruct (initMapConfig_areaSide Example.map Example.vsize Hth)
    as (_ & _ & Hfit).
  destruct Hfit as (Hside & Heven & _); [vm_compute; discriminate |].
  split; [exact Hside | exact Heven].
Defined.

(** ** Coordinate round trips *)

(** C6: on a square map with tile sizes that are not zero, converting an
    integer cell coordinate to its map pixel point and back returns the same
    cell. *)
Theorem mapPixelToCellPoint_mapCellToPixelPoint
    (map : MapUtil.TiledMap) (vsize : Size.t Q) (c : Vec2.t Z) :
  Size.width (MapUtil.getMapSize map) = Size.height (MapUtil.getMapSize map) ->
  ~ (Size.width (MapUtil.getTileSize map) == 0)%Q ->
  ~ (Size.height (MapUtil.getTileSize map) == 0)%Q ->
  let cfg := MapUtil.initMapConfig map vsize in
  MapUtil.mapPixelToCellPoint cfg (MapUtil.mapCellToPixelPoint cfg c) = c.
Proof.
  intros Hsq Htw Hth. destruct c as [cx cy].
  unfold MapUtil.mapPixelToCellPoint, MapUtil.mapCellToPixelPoint,
    MapUtil.worldPixelToMapCellPoint, MapUtil.mapCellToWorldPixelPoint.
  cfg_fields. rewrite Hsq.
  set (m := inject_Z (Size.height (MapUtil.getMapSize map))).
  set (tw := Size.width (MapUtil.getTileSize map)) in *.
  set (th := Size.height (MapUtil.getTileSize map)) in *.
  f_equal; apply Qfloor_half.
  - rewrite inject_Z_sub, inject_Z_plus. field. split; assumption.
  - rewrite inject_Z_sub, inject_Z_plus. field. split; assumption.
Qed.

Lemma mapPixelToCellPoint_mapCellToPixelPoint_witness :
  MapUtil.mapPixelToCellPoint Example.cfg
    (MapUtil.mapCellToPixelPoint Example.cfg (v2 19 0)) = v2 19 0.
Proof.
  apply (mapPixelToCellPoint_mapCellToPixelPoint Example.map Example.vsize (v2 19 0)).
  - reflexivity.
  - vm_compute; discriminate.
  - vm_compute; discriminate.
Defined.

(** A positive tile extent scaled by a factor in [-1, 1) stays within one
    tile extent. *)
Lemma scaled_within (t e : Q) :
  (0 < t)%Q -> (-1 <= e)%Q -> (e < 1)%Q ->
  (- t <= t * e)%Q /\ (t * e < t)%Q.
Proof.
  intros Ht Hlo Hhi. split.
  - assert (H : (0 <= t * (e + 1))%Q) by (apply Qmult_le_0_compat; lra).
    lra.
  - assert (H : (0 < t * (1 - e))%Q) by (apply Qmult_lt_0_compat; lra).
    lra.
Qed.

(** C7: on a square map with positive tile sizes, converting a world pixel
    point to its cell and the cell back to its centre pixel lands within
    one tile of the point: the x difference is below the tile width and the
    y difference is at most the tile height. *)
Theorem mapCellToWorldPixelPoint_worldPixelToMapCellPoint
    (map : MapUtil.TiledMap) (vsize : Size.t Q) (p : Vec2.t Q) :
  Size.width (MapUtil.getMapSize map) = Size.height (MapUtil.getMapSize map) ->
  (0 < Size.width (MapUtil.getTileSize map))%Q ->
  (0 < Size.height (MapUtil.getTileSize map))%Q ->
  let cfg := MapUtil.initMapConfig map vsize in
  let p' := MapUtil.mapCellToWorldPixelPoint cfg
              (MapUtil.worldPixelToMapCellPoint cfg p) in
  (Qabs (Vec2.x p' - Vec2.x p) < Size.width (MapUtil.getTileSize map))%Q /\
  (Qabs (Vec2.y p' - Vec2.y p) <= Size.height (MapUtil.getTileSize map))%Q.
Proof.
  intros Hsq Htw Hth. destruct p as [px py].
  unfold MapUtil.worldPixelToMapCellPoint, MapUtil.mapCellToWorldPixelPoint.
  cfg_fields. rewrite Hsq.
  set (m := inject_Z (Size.height (MapUtil.getMapSize map))).
  set (tw := Size.width (MapUtil.getTileSize map)) in *.
  set (th := Size.height (MapUtil.getTileSize map)) in *.
  set (u := ((1 # 2) * m + px / tw - py / th)%Q).
  set (v := ((3 # 2) * m - px / tw - py / th)%Q).
  pose proof (Qfloor_le u) as Hu1. pose proof (Qlt_floor u) as Hu2.
  pose proof (Qfloor_le v) as Hv1. pose proof (Qlt_floor v) as Hv2.
  rewrite inject_Z_plus in Hu2, Hv2.
  change (inject_Z 1) with 1%Q in Hu2, Hv2.
  rewrite inject_Z_sub, inject_Z_plus.
  set (fx := inject_Z (Qfloor u)) in *.
  set (fy := inject_Z (Qfloor v)) in *.
  assert (Htw0 : ~ (tw == 0)%Q) by lra.
  assert (Hth0 : ~ (th == 0)%Q) by lra.
  assert (Huv : (u - v == 2 * (px / tw) - m)%Q) by (unfold u, v; ring).
  assert (Hsum : (u + v == 2 * m - 2 * (py / th))%Q) by (unfold u, v; ring).
  split.
  - assert (Hdx : (m * tw * (1 # 2) - (fy - fx) * tw * (1 # 2) - px
                   == tw * ((m - fy + fx - 2 * (px / tw)) * (1 # 2)))%Q)
      by (field; exact Htw0).
    rewrite Hdx.
    destruct (scaled_within tw ((m - fy + fx - 2 * (px / tw)) * (1 # 2))%Q)
      as [Hlo Hhi]; [exact Htw | lra | lra |].
    apply Qabs_Qlt_condition. split; [| exact Hhi].
    destruct (scaled_within tw (- ((m - fy + fx - 2 * (px / tw)) * (1 # 2)))%Q)
      as [_ Hhi']; [exact Htw | lra | lra |].
    lra.
  - assert (Hdy : (m * th - th * (1 # 2) - (fx + fy) * th * (1 # 2) - py
                   == th * (m - (1 # 2) - (fx + fy) * (1 # 2) - py / th))%Q)
      by (field; exact Hth0).
    rewrite Hdy.
    destruct (scaled_within th (m - (1 # 2) - (fx + fy) * (1 # 2) - py / th)%Q)
      as [Hlo Hhi]; [exact Hth | lra | lra |].
    apply Qabs_Qle_condition. split; lra.
Qed.

Lemma mapCellToWorldPixelPoint_worldPixelToMapCellPoint_witness :
  let p := v2 1000%Q 300%Q in
  let p' := MapUtil.mapCellToWorldPixelPoint Example.cfg
              (MapUtil.worldPixelToMapCellPoint Example.cfg p) in
  (Qabs (Vec2.x p' - Vec2.x p) < 256)%Q /\ (Qabs (Vec2.y p' - Vec2.y p) <= 128)%Q.
Proof.
  apply (mapCellToWorldPixelPoint_worldPixelToMapCellPoint
           Example.map Example.vsize (v2 1000%Q 300%Q)).
  - reflexivity.
  - reflexivity.
  - reflexivity.
Defined.

(** ** Throttle of area queries *)

Lemma checkAndUpdateQryTime_true (nowTime : Z) (d : MapAreaData.t) :
  (MapAreaData.checkAndUpdateQryTime nowTime d).1 = true <->
  nowTime - MapAreaData.qryStartTime d >= MapAreaData.MAX_TIME.
Proof.
  unfold MapAreaData.checkAndUpdateQryTime.
  destruct (Z.geb_spec (nowTime - MapAreaData.qryStartTime d) MapAreaData.MAX_TIME);
    cbn; split; intros; try lia; try reflexivity; discriminate.
Qed.

(** C5, as stated, fails.  A descriptor last queried at time T refuses a
    call at T + 6 s and then permits the call made 5 s later, at T + 11 s:
    the second of two calls 5 s apart returns true.  And when the clock has
    been set back, so that the stored timestamp T lies 5 s after the first
    call, the call made 11 s after the first one comes 6 s after T and is
    refused: the second of two calls 11 s apart returns false. *)
Lemma checkAndUpdateQryTime_5s_counterexample :
  let T := 1700000000000 in
  let first := MapAreaData.checkAndUpdateQryTime (T + 6000) Example.queried in
  let second := MapAreaData.checkAndUpdateQryTime (T + 6000 + 5000) first.2 in
  let first' := MapAreaData.checkAndUpdateQryTime (T - 5000) Example.queried in
  let second' := MapAreaData.checkAndUpdateQryTime (T - 5000 + 11000) first'.2 in
  MapAreaData.qryStartTime Example.queried = T /\
  (first.1 = false /\ ~ (second.1 = false)) /\
  (first'.1 = false /\ ~ (second'.1 = true)).
Proof.
  split; [reflexivity |].
  split; (split; [reflexivity | vm_compute; discriminate]).
Qed.

(** C5, amended: the throttle check returns true exactly when nowTime minus
    the stored timestamp is at least 10000 ms, and it stores nowTime exactly
    when it returns true, changing no other field.  Consequently the second
    of two calls 5 s apart returns false exactly when the first call
    returned true or came less than 5000 ms after the stored timestamp; and
    the second of two calls 11 s apart returns true exactly when the first
    call came no more than 1000 ms before the stored timestamp, so whenever
    the stored timestamp is not later than the first call, whether that
    call was permitted or refused. *)
Theorem checkAndUpdateQryTime_spec (nowTime : Z) (d : MapAreaData.t) :
  let r := MapAreaData.checkAndUpdateQryTime nowTime d in
  let stored := MapAreaData.qryStartTime d in
  (r.1 = true <-> nowTime - stored >= 10000) /\
  r.2 = (if r.1 then MapAreaData.set_qryStartTime nowTime d else d) /\
  ((MapAreaData.checkAndUpdateQryTime (nowTime + 5000) r.2).1 = false <->
   r.1 = true \/ nowTime - stored < 5000) /\
  ((MapAreaData.checkAndUpdateQryTime (nowTime + 11000) r.2).1 = true <->
   nowTime - stored >= -1000) /\
  (stored <= nowTime ->
   (MapAreaData.checkAndUpdateQryTime (nowTime + 11000) r.2).1 = true).
Proof.
  cbv zeta. split; [apply checkAndUpdateQryTime_true |].
  assert (Hnext : forall t d', (MapAreaData.checkAndUpdateQryTime t d').1 = true <->
                               t - MapAreaData.qryStartTime d' >= 10000)
    by (intros; apply checkAndUpdateQryTime_true).
  assert (Hrefused : forall t d', (MapAreaData.checkAndUpdateQryTime t d').1 = false <->
                                  t - MapAreaData.qryStartTime d' < 10000).
  { intros t d'. rewrite <- Bool.not_true_iff_false, Hnext. lia. }
  destruct (MapAreaData.checkAndUpdateQryTime nowTime d) as [ok d'] eqn:E.
  unfold MapAreaData.checkAndUpdateQryTime in E.
  destruct (Z.geb_spec (nowTime - MapAreaData.qryStartTime d) MapAreaData.MAX_TIME)
    as [Hge | Hlt]; unfold MapAreaData.MAX_TIME in *;
    injection E as <- <-; cbn [fst snd].
  - split; [reflexivity |]. rewrite Hrefused, Hnext.
    cbn [MapAreaData.qryStartTime MapAreaData.set_qryStartTime].
    split; [split; [intros _; now left | intros _; lia] |].
    split; [split; intros; lia | intros; lia].
  - split; [reflexivity |]. rewrite Hrefused, Hnext.
    split; [split; [intros; right; lia | intros [Hf | Hs]; [discriminate | lia]] |].
    split; [split; intros; lia | intros; lia].
Qed.

Lemma checkAndUpdateQryTime_spec_witness :
  let T := 1700000000000 in
  let refused := MapAreaData.checkAndUpdateQryTime (T + 6000) Example.queried in
  let permitted := MapAreaData.checkAndUpdateQryTime (T + 12000) Example.queried in
  (refused.1 = false /\
   (MapAreaData.checkAndUpdateQryTime (T + 6000 + 11000) refused.2).1 = true) /\
  (permitted.1 = true /\
   (MapAreaData.checkAndUpdateQryTime (T + 12000 + 5000) permitted.2).1 = false /\
   (MapAreaData.checkAndUpdateQryTime (T + 12000 + 11000) permitted.2).1 = true).
Proof.
  cbv zeta. split.
  - destruct (checkAndUpdateQryTime_spec (1700000000000 + 6000) Example.queried)
      as (_ & _ & _ & _ & H11).
    split; [reflexivity | apply H11; vm_compute; discriminate].
  - destruct (checkAndUpdateQryTime_spec (1700000000000 + 12000) Example.queried)
      as (_ & _ & H5 & _ & H11).
    split; [reflexivity |].
    split; [apply H5; left; reflexivity | apply H11; vm_compute; discriminate].
Defined.

(** ** [indexOf] and the list differences of the incremental branch *)

Lemma indexOf_from_spec (l : list Z) (v i : Z) :
  0 <= i ->
  (v ∈ l /\ i <= indexOf_from i l v) \/ ((v ∉ l) /\ indexOf_from i l v = -1).
Proof.
  revert i. induction l as [| a l IH]; intros i Hi; cbn.
  - right. split; [apply not_elem_of_nil | reflexivity].
  - destruct (Z.eqb_spec a v) as [-> | Hne].
    + left. split; [apply elem_of_cons; now left | lia].
    + destruct (IH (i + 1)) as [[Hin Hle] | [Hnin Heq]]; [lia | |].
      * left. split; [apply elem_of_cons; now right | lia].
      * right. split; [| exact Heq].
        intros Hin. apply elem_of_cons in Hin as [-> | Hin];
          [now apply Hne | now apply Hnin].
Qed.

Lemma absent_true (l : list Z) (v : Z) : MapProxy.absent l v = true <-> v ∉ l.
Proof.
  unfold MapProxy.absent, indexOf.
  destruct (indexOf_from_spec l v 0) as [[Hin Hle] | [Hnin Heq]]; [lia | |].
  - split; [intros H%Z.eqb_eq; lia | intros H; now destruct H].
  - rewrite Heq. split; [intros _; exact Hnin | reflexivity].
Qed.

Lemma filter_absent (l k : list Z) :
  List.filter (MapProxy.absent l) k = list_difference k l.
Proof.
  induction k as [| a k IH]; cbn; [reflexivity |].
  rewrite IH. destruct (decide_rel elem_of a l) as [Hin | Hnin].
  - destruct (MapProxy.absent l a) eqn:Ha; [| reflexivity].
    apply absent_true in Ha. now destruct Ha.
  - apply absent_true in Hnin. now rewrite Hnin.
Qed.

(** [indexOf] is 0 exactly when the value is the first element. *)
Lemma indexOf_zero (l : list Z) (v : Z) : indexOf l v = 0 <-> head l = Some v.
Proof.
  unfold indexOf. destruct l as [| a l]; cbn; [split; discriminate |].
  destruct (Z.eqb_spec a v) as [-> | Hne].
  - split; reflexivity.
  - split; [| intros [= ->]; now destruct Hne].
    destruct (indexOf_from_spec l v (0 + 1)) as [[_ Hle] | [_ Heq]]; lia.
Qed.

(** What the incremental branch really takes as its priority list: the new
    centre area, unless that area is the first element of [addIds]. *)
Lemma incrementalChange_firstAreaIds (cfg : MapUtil.Config) (cur : Z)
    (areaData : MapAreaData.t) (newIds : list Z) :
  let c := MapProxy.incrementalChange cfg cur areaData newIds in
  MapProxy.firstAreaIds c =
    if decide (head (MapProxy.addIds c) = Some (MapAreaData.id areaData))
    then None else Some [MapAreaData.id areaData].
Proof.
  unfold MapProxy.incrementalChange.
  cbn [MapProxy.firstAreaIds MapProxy.addIds]. unfold truthy.
  set (addIds := List.filter _ newIds).
  destruct (decide _) as [Hhd | Hhd].
  - apply indexOf_zero in Hhd. now rewrite Hhd.
  - destruct (Z.eqb_spec (indexOf addIds (MapAreaData.id areaData)) 0)
      as [H0 | H0]; [| reflexivity].
    apply indexOf_zero in H0. now destruct Hhd.
Qed.

(** ** The descriptor store *)

Section Store.
Variable cfg : MapUtil.Config.
Variable vsize : Size.t Q.

Lemma getMapAreaData_eq (id : Z) (this : MapProxy.t) :
  MapProxy.getMapAreaData cfg id this =
    (Invariant.areaDataOf cfg (MapProxy.mapAreaDatas this) id,
     MapProxy.set_mapAreaDatas
       (<[id := Invariant.areaDataOf cfg (MapProxy.mapAreaDatas this) id]>
          (MapProxy.mapAreaDatas this)) this).
Proof.
  unfold MapProxy.getMapAreaData, Invariant.areaDataOf.
  destruct (MapProxy.mapAreaDatas this !! id) as [d |] eqn:Hl; cbn.
  - rewrite insert_id by exact Hl. now destruct this.
  - reflexivity.
Qed.

Lemma areaDataOf_ok (m : gmap Z MapAreaData.t) (id : Z) :
  Invariant.store_ok cfg m ->
  MapAreaData.set_qryStartTime 0 (Invariant.areaDataOf cfg m id)
  = MapProxy.makeAreaData cfg id.
Proof.
  intros Hok. unfold Invariant.areaDataOf.
  destruct (m !! id) as [d |] eqn:Hl; cbn.
  - exact (Hok id d Hl).
  - reflexivity.
Qed.

Lemma areaDataOf_id (m : gmap Z MapAreaData.t) (id : Z) :
  Invariant.store_ok cfg m ->
  MapAreaData.id (Invariant.areaDataOf cfg m id) = id.
Proof.
  intros Hok.
  change id with (MapAreaData.id (MapProxy.makeAreaData cfg id)) at 2.
  rewrite <- (areaDataOf_ok m id Hok). reflexivity.
Qed.

Lemma areaDataOf_insert_ne (m : gmap Z MapAreaData.t) (i j : Z) (d : MapAreaData.t) :
  i <> j ->
  Invariant.areaDataOf cfg (<[i := d]> m) j = Invariant.areaDataOf cfg m j.
Proof.
  intros Hne. unfold Invariant.areaDataOf. now rewrite lookup_insert_ne.
Qed.

Lemma store_ok_empty : Invariant.store_ok cfg ∅.
Proof. apply map_Forall_empty. Qed.

Lemma store_ok_truncate (n : Z) (m : gmap Z MapAreaData.t) :
  Invariant.store_ok cfg m -> Invariant.store_ok cfg (MapProxy.truncate n m).
Proof.
  intros Hok id d Hl. unfold MapProxy.truncate in Hl.
  destruct ((0 <=? n) && (n <=? 4294967295)); [| exact (Hok id d Hl)].
  apply map_lookup_filter_Some in Hl as [Hl _]. exact (Hok id d Hl).
Qed.

Lemma store_ok_insert (m : gmap Z MapAreaData.t) (id : Z) (d : MapAreaData.t) :
  Invariant.store_ok cfg m ->
  MapAreaData.set_qryStartTime 0 d = MapProxy.makeAreaData cfg id ->
  Invariant.store_ok cfg (<[id := d]> m).
Proof.
  intros Hok Hd. apply map_Forall_insert_2; assumption.
Qed.

Lemma getMapAreaData_store_ok (id : Z) (this : MapProxy.t) :
  Invariant.store_ok cfg (MapProxy.mapAreaDatas this) ->
  Invariant.store_ok cfg
    (MapProxy.mapAreaDatas (MapProxy.getMapAreaData cfg id this).2).
Proof.
  intros Hok. rewrite getMapAreaData_eq. cbn.
  apply store_ok_insert; [exact Hok | now apply areaDataOf_ok].
Qed.

Lemma checkAndUpdateQryTimeOf_store_ok (id nowTime : Z) (this this' : MapProxy.t)
    (ok : bool) :
  Invariant.store_ok cfg (MapProxy.mapAreaDatas this) ->
  MapProxy.checkAndUpdateQryTimeOf id nowTime this = Some (ok, this') ->
  Invariant.store_ok cfg (MapProxy.mapAreaDatas this').
Proof.
  intros Hok. unfold MapProxy.checkAndUpdateQryTimeOf.
  destruct (MapProxy.mapAreaDatas this !! id) as [d |] eqn:Hl; [| discriminate].
  pose proof (Hok id d Hl) as Hd. cbn in Hd.
  unfold MapAreaData.checkAndUpdateQryTime.
  destruct (nowTime - MapAreaData.qryStartTime d >=? MapAreaData.MAX_TIME);
    intros [= <- <-]; cbn; apply store_ok_insert; assumption.
Qed.

Lemma areaTransition_store_ok (areaId : Z) (pixelPoint : Vec2.t Q)
    (this : MapProxy.t) :
  Invariant.store_ok cfg (MapProxy.mapAreaDatas this) ->
  Invariant.store_ok cfg
    (MapProxy.mapAreaDatas (MapProxy.areaTransition cfg vsize areaId pixelPoint this).2).
Proof.
  intros Hok. unfold MapProxy.areaTransition.
  pose proof (getMapAreaData_store_ok areaId this Hok) as Hok1.
  destruct (MapProxy.getMapAreaData cfg areaId this) as [areaData this1].
  cbn [snd] in Hok1.
  destruct (MapProxy.curCenterAreaId this1 =? -1); [exact Hok1 |].
  pose proof (getMapAreaData_store_ok (MapProxy.curCenterAreaId this1) this1 Hok1)
    as Hok2.
  destruct (MapProxy.getMapAreaData cfg (MapProxy.curCenterAreaId this1) this1)
    as [prev this2].
  cbn [snd] in Hok2.
  destruct (negb (MapAreaData.fuzzyEquals prev (Some areaData) 3)); exact Hok2.
Qed.

Lemma setCurCenterPoint_store_ok (point : Vec2.t Z) (pixelPoint : Vec2.t Q)
    (this : MapProxy.t) :
  Invariant.store_ok cfg (MapProxy.mapAreaDatas this) ->
  Invariant.store_ok cfg
    (MapProxy.mapAreaDatas
       (MapProxy.setCurCenterPoint cfg vsize point pixelPoint this).1.2).
Proof.
  intros Hok. unfold MapProxy.setCurCenterPoint.
  destruct (MapProxy.centerDiffers _ _); [| exact Hok].
  match goal with |- context [if ?b then _ else _] => destruct b end;
    [| exact Hok].
  match goal with
  | |- context [MapProxy.areaTransition cfg vsize ?a ?p ?t] =>
      pose proof (areaTransition_store_ok a p t Hok) as Hok';
      destruct (MapProxy.areaTransition cfg vsize a p t) as [change this2]
  end.
  exact Hok'.
Qed.

(** The invariant holds in every state the proxy can reach. *)
Lemma reachable_store_ok (this : MapProxy.t) :
  Invariant.reachable cfg vsize this ->
  Invariant.store_ok cfg (MapProxy.mapAreaDatas this).
Proof.
  induction 1 as [| this _ IH | this _ IH | this id _ IH
                  | this id nowTime ok this' _ IH Hstep
                  | this point pixelPoint _ IH].
  - apply store_ok_empty.
  - now apply store_ok_truncate.
  - now apply store_ok_truncate.
  - now apply getMapAreaData_store_ok.
  - exact (checkAndUpdateQryTimeOf_store_ok id nowTime this this' ok IH Hstep).
  - now apply setCurCenterPoint_store_ok.
Qed.

End Store.

(** ** Descriptors handed out by [getMapAreaData] *)

(** C10: for a configuration built by [initMapConfig], a store that
    satisfies the invariant and a valid area id, [getMapAreaData] returns a
    descriptor with the id asked for, the area coordinates of
    [getAreaPointById], the start cell (x * side, y * side), the end cell
    (start + side), which is also [getEndCellPointByAreaPoint], and
    [len = side]; the descriptor is stored under the id, a second call
    returns the same descriptor and changes nothing, and no descriptor
    stored before is changed or removed. *)
Theorem getMapAreaData_descriptor (map : MapUtil.TiledMap) (vsize : Size.t Q)
    (id : Z) (this : MapProxy.t) :
  let cfg := MapUtil.initMapConfig map vsize in
  Invariant.store_ok cfg (MapProxy.mapAreaDatas this) ->
  MapUtil.isVaildAreaId cfg id = true ->
  let r := MapProxy.getMapAreaData cfg id this in
  let d := r.1 in
  let side := Size.width (MapUtil.areaCellSize cfg) in
  (MapAreaData.id d = id /\
   v2 (MapAreaData.x d) (MapAreaData.y d) = MapUtil.getAreaPointById cfg id /\
   MapAreaData.startCellX d = MapAreaData.x d * side /\
   MapAreaData.startCellY d = MapAreaData.y d * side /\
   MapAreaData.endCellX d = MapAreaData.startCellX d + side /\
   MapAreaData.endCellY d = MapAreaData.startCellY d + side /\
   v2 (MapAreaData.endCellX d) (MapAreaData.endCellY d)
   = MapUtil.getEndCellPointByAreaPoint cfg (MapAreaData.x d) (MapAreaData.y d) /\
   MapAreaData.len d = side) /\
  MapProxy.mapAreaDatas r.2 !! id = Some d /\
  MapProxy.getMapAreaData cfg id r.2 = (d, r.2) /\
  (forall j d', MapProxy.mapAreaDatas this !! j = Some d' ->
                MapProxy.mapAreaDatas r.2 !! j = Some d') /\
  (forall j, j <> id ->
             MapProxy.mapAreaDatas r.2 !! j = MapProxy.mapAreaDatas this !! j).
Proof.
  intros cfg Hok _. cbv zeta. rewrite getMapAreaData_eq. cbn [fst snd].
  pose proof (areaDataOf_ok cfg (MapProxy.mapAreaDatas this) id Hok) as Hd.
  assert (Hkeep : forall d', MapProxy.mapAreaDatas this !! id = Some d' ->
            Invariant.areaDataOf cfg (MapProxy.mapAreaDatas this) id = d').
  { intros d' Hl. unfold Invariant.areaDataOf. now rewrite Hl. }
  set (d := Invariant.areaDataOf cfg (MapProxy.mapAreaDatas this) id) in *.
  split.
  - destruct d as [did dx dy dsx dsy dex dey dlen dq].
    unfold MapAreaData.set_qryStartTime, MapProxy.makeAreaData in Hd.
    cbn [MapAreaData.id MapAreaData.x MapAreaData.y MapAreaData.startCellX
         MapAreaData.startCellY MapAreaData.endCellX MapAreaData.endCellY
         MapAreaData.len] in *.
    injection Hd as -> -> -> -> -> -> -> ->.
    unfold MapUtil.getEndCellPointByAreaPoint, MapUtil.getStartCellPointByAreaPoint.
    unfold cfg. cfg_fields.
    repeat split; try reflexivity. f_equal; ring.
  - cbn [MapProxy.mapAreaDatas MapProxy.set_mapAreaDatas].
    split; [apply lookup_insert_eq |].
    split.
    + unfold MapProxy.getMapAreaData.
      cbn [MapProxy.mapAreaDatas MapProxy.set_mapAreaDatas].
      now rewrite lookup_insert_eq.
    + split.
      * intros j d' Hj. destruct (decide (id = j)) as [<- | Hne].
        -- rewrite lookup_insert_eq. f_equal. now apply Hkeep.
        -- now rewrite lookup_insert_ne.
      * intros j Hne. now rewrite lookup_insert_ne.
Qed.

Lemma getMapAreaData_descriptor_witness :
  let r := MapProxy.getMapAreaData Example.cfg 5 Example.centred_15_9 in
  MapUtil.isVaildAreaId Example.cfg 5 = true /\
  r.1 = MapAreaData.mk 5 2 1 16 8 24 16 8 0 /\
  MapProxy.getMapAreaData Example.cfg 5 r.2 = (r.1, r.2).
Proof.
  assert (Hok : Invariant.store_ok Example.cfg
                  (MapProxy.mapAreaDatas Example.centred_15_9)).
  { apply setCurCenterPoint_store_ok, store_ok_empty. }
  assert (Hvalid : MapUtil.isVaildAreaId Example.cfg 5 = true) by reflexivity.
  destruct (getMapAreaData_descriptor Example.map Example.vsize 5
              Example.centred_15_9 Hok Hvalid) as (_ & _ & Hagain & _).
  split; [exact Hvalid |]. split; [vm_compute; reflexivity | exact Hagain].
Defined.

(** ** [setCurCenterPoint] *)

Section SetCurCenterPoint.
Variable cfg : MapUtil.Config.
Variable vsize : Size.t Q.

Lemma centerDiffers_false (cur : option (Vec2.t Z)) (point : Vec2.t Z) :
  MapProxy.centerDiffers cur point = false <->
  exists c, cur = Some c /\ Vec2.x c = Vec2.x point /\ Vec2.y c = Vec2.y point.
Proof.
  unfold MapProxy.centerDiffers. destruct cur as [c |].
  - destruct (Z.eqb_spec (Vec2.x c) (Vec2.x point)),
             (Z.eqb_spec (Vec2.y c) (Vec2.y point)); cbn;
      (split; [intros H; try discriminate H; eauto
              | intros (c' & [= <-] & Hx & Hy); congruence]).
  - split; [discriminate | intros (c & H & _); discriminate].
Qed.

Lemma centerDiffers_true (cur : option (Vec2.t Z)) (point : Vec2.t Z) :
  cur <> Some point -> MapProxy.centerDiffers cur point = true.
Proof.
  intros Hne. destruct (MapProxy.centerDiffers cur point) eqn:E; [reflexivity |].
  apply centerDiffers_false in E as (c & -> & Hx & Hy).
  destruct Hne. destruct c, point; cbn in *; congruence.
Qed.

(** After any call, the stored centre equals the point of the call. *)
Lemma setCurCenterPoint_center (point : Vec2.t Z) (pixelPoint : Vec2.t Q)
    (this : MapProxy.t) :
  MapProxy.centerDiffers
    (MapProxy.curCenterPoint
       (MapProxy.setCurCenterPoint cfg vsize point pixelPoint this).1.2)
    point = false.
Proof.
  unfold MapProxy.setCurCenterPoint.
  destruct (MapProxy.centerDiffers (MapProxy.curCenterPoint this) point) eqn:E;
    [| exact E].
  assert (Hpt : MapProxy.centerDiffers (Some point) point = false).
  { apply centerDiffers_false. eauto. }
  match goal with |- context [if ?b then _ else _] => destruct b end;
    [| exact Hpt].
  unfold MapProxy.areaTransition.
  repeat match goal with
         | |- context [MapProxy.getMapAreaData cfg ?i ?t] =>
             rewrite (getMapAreaData_eq cfg i t)
         | |- context [if ?b then _ else _] => destruct b
         end; exact Hpt.
Qed.

End SetCurCenterPoint.

(** C8: a call with a cell equal, component by component, to the stored
    centre returns false, leaves the proxy as it is and emits nothing; a
    repeated identical call does the same again. *)
Theorem setCurCenterPoint_same_point (cfg : MapUtil.Config) (vsize : Size.t Q)
    (point c : Vec2.t Z) (pixelPoint : Vec2.t Q) (this : MapProxy.t) :
  MapProxy.curCenterPoint this = Some c ->
  Vec2.x c = Vec2.x point ->
  Vec2.y c = Vec2.y point ->
  let r := MapProxy.setCurCenterPoint cfg vsize point pixelPoint this in
  r = (false, this, []) /\
  MapProxy.setCurCenterPoint cfg vsize point pixelPoint r.1.2 = (false, this, []).
Proof.
  intros Hcur Hx Hy.
  assert (Hsame : MapProxy.setCurCenterPoint cfg vsize point pixelPoint this
                  = (false, this, [])).
  { unfold MapProxy.setCurCenterPoint.
    replace (MapProxy.centerDiffers (MapProxy.curCenterPoint this) point)
      with false; [reflexivity |].
    symmetry. apply centerDiffers_false. eauto. }
  cbv zeta. rewrite Hsame. split; [reflexivity | exact Hsame].
Qed.

Lemma setCurCenterPoint_same_point_witness :
  MapProxy.setCurCenterPoint Example.cfg Example.vsize (v2 15 9)
    (MapUtil.mapCellToPixelPoint Example.cfg (v2 15 9)) Example.centred_15_9
  = (false, Example.centred_15_9, []).
Proof.
  apply (setCurCenterPoint_same_point Example.cfg Example.vsize
           (v2 15 9) (v2 15 9)).
  - reflexivity.
  - reflexivity.
  - reflexivity.
Defined.

(** Whatever the state and the pixel points, the call that follows a call
    with the same cell is a no-op. *)
Lemma setCurCenterPoint_twice (cfg : MapUtil.Config) (vsize : Size.t Q)
    (point : Vec2.t Z) (pixelPoint pixelPoint' : Vec2.t Q) (this : MapProxy.t) :
  let this' := (MapProxy.setCurCenterPoint cfg vsize point pixelPoint this).1.2 in
  MapProxy.setCurCenterPoint cfg vsize point pixelPoint' this' = (false, this', []).
Proof.
  cbv zeta.
  pose proof (setCurCenterPoint_center cfg vsize point pixelPoint this) as Hc.
  unfold MapProxy.setCurCenterPoint at 1. now rewrite Hc.
Qed.

(** C9: a call with a cell other than the stored centre, lying in the
    stored centre area (which is set), returns true, stores the cell and
    emits only the centre-changed notification; the centre area id, the
    descriptor store and the fetch queue stay as they are. *)
Theorem setCurCenterPoint_same_area (cfg : MapUtil.Config) (vsize : Size.t Q)
    (point : Vec2.t Z) (pixelPoint : Vec2.t Q) (this : MapProxy.t) :
  MapProxy.curCenterPoint this <> Some point ->
  MapProxy.curCenterAreaId this <> -1 ->
  MapUtil.getAreaIdByCellPoint cfg (Vec2.x point) (Vec2.y point)
  = MapProxy.curCenterAreaId this ->
  MapProxy.setCurCenterPoint cfg vsize point pixelPoint this
  = (true,
     MapProxy.mk (Some point) (MapProxy.curCenterAreaId this)
       (MapProxy.mapAreaDatas this) (MapProxy.qryAreaIds this),
     [MapProxy.mapEenterChange point]).
Proof.
  intros Hpt Hset Harea. unfold MapProxy.setCurCenterPoint.
  rewrite (centerDiffers_true _ _ Hpt).
  cbn [MapProxy.curCenterAreaId].
  change (MapUtil.getIdByAreaPoint cfg
            (Vec2.x (MapUtil.getAreaPointByCellPoint cfg (Vec2.x point) (Vec2.y point)))
            (Vec2.y (MapUtil.getAreaPointByCellPoint cfg (Vec2.x point) (Vec2.y point))))
    with (MapUtil.getAreaIdByCellPoint cfg (Vec2.x point) (Vec2.y point)).
  rewrite Harea, Z.eqb_refl.
  destruct (Z.eqb_spec (MapProxy.curCenterAreaId this) (-1)) as [He | _];
    [now destruct Hset | reflexivity].
Qed.

Lemma setCurCenterPoint_same_area_witness :
  MapProxy.setCurCenterPoint Example.cfg Example.vsize (v2 14 9)
    (MapUtil.mapCellToPixelPoint Example.cfg (v2 14 9)) Example.centred_15_9
  = (true,
     MapProxy.mk (Some (v2 14 9)) 4
       (MapProxy.mapAreaDatas Example.centred_15_9)
       (MapProxy.qryAreaIds Example.centred_15_9),
     [MapProxy.mapEenterChange (v2 14 9)]).
Proof.
  apply (setCurCenterPoint_same_area Example.cfg Example.vsize (v2 14 9)).
  - vm_compute. discriminate.
  - vm_compute. discriminate.
  - reflexivity.
Defined.

(** C4: in an area transition from a set centre area whose descriptor is
    fuzzily equal (tolerance 3) to the descriptor of the new area, the
    notification carries addIds = the valid nine-grid of the new area
    without the ids of the valid nine-grid of the previous area, in the
    order of the new grid, and removeIds = the previous grid without the
    ids of the new one, in the order of the previous grid. *)
Theorem setCurCenterPoint_pan_diff (cfg : MapUtil.Config) (vsize : Size.t Q)
    (point : Vec2.t Z) (pixelPoint : Vec2.t Q) (this : MapProxy.t) :
  let areaId := MapUtil.getAreaIdByCellPoint cfg (Vec2.x point) (Vec2.y point) in
  let prevId := MapProxy.curCenterAreaId this in
  let newIds := MapUtil.get9GridVaildAreaIds cfg areaId in
  let oldIds := MapUtil.get9GridVaildAreaIds cfg prevId in
  Invariant.store_ok cfg (MapProxy.mapAreaDatas this) ->
  MapProxy.curCenterPoint this <> Some point ->
  prevId <> -1 ->
  prevId <> areaId ->
  MapAreaData.fuzzyEquals (MapProxy.getMapAreaData cfg prevId this).1
    (Some (MapProxy.getMapAreaData cfg areaId this).1) 3 = true ->
  let r := MapProxy.setCurCenterPoint cfg vsize point pixelPoint this in
  r.1.1 = true /\
  MapProxy.curCenterAreaId r.1.2 = areaId /\
  r.2 = [ MapProxy.mapEenterChange point;
          MapProxy.mapShowAreaChange point areaId
            (list_difference newIds oldIds) (list_difference oldIds newIds) ].
Proof.
  intros areaId prevId newIds oldIds Hok Hpt Hset Hne Hfuzzy.
  rewrite !getMapAreaData_eq in Hfuzzy. cbn [fst] in Hfuzzy.
  cbv zeta. unfold MapProxy.setCurCenterPoint.
  rewrite (centerDiffers_true _ _ Hpt).
  cbn [MapProxy.curCenterAreaId].
  change (MapUtil.getIdByAreaPoint cfg
            (Vec2.x (MapUtil.getAreaPointByCellPoint cfg (Vec2.x point) (Vec2.y point)))
            (Vec2.y (MapUtil.getAreaPointByCellPoint cfg (Vec2.x point) (Vec2.y point))))
    with areaId.
  fold prevId.
  destruct (Z.eqb_spec prevId (-1)) as [He | _]; [now destruct Hset |].
  destruct (Z.eqb_spec prevId areaId) as [He | _]; [now destruct Hne |].
  cbn [orb negb].
  unfold MapProxy.areaTransition.
  rewrite getMapAreaData_eq.
  cbn [MapProxy.mapAreaDatas MapProxy.set_mapAreaDatas MapProxy.curCenterAreaId].
  fold prevId.
  destruct (Z.eqb_spec prevId (-1)) as [He | _]; [now destruct Hset |].
  rewrite getMapAreaData_eq.
  cbn [MapProxy.mapAreaDatas MapProxy.set_mapAreaDatas MapProxy.curCenterAreaId].
  rewrite areaDataOf_insert_ne by (intros He; now apply Hne).
  fold prevId. rewrite Hfuzzy. cbn [negb].
  rewrite (areaDataOf_id cfg _ areaId Hok).
  cbn [fst snd MapProxy.curCenterAreaId MapProxy.addIds MapProxy.removeIds
       MapProxy.incrementalChange].
  fold newIds oldIds. rewrite !filter_absent.
  repeat split.
Qed.

Lemma setCurCenterPoint_pan_diff_witness :
  let r := MapProxy.setCurCenterPoint Example.cfg Example.vsize (v2 15 16)
             (MapUtil.mapCellToPixelPoint Example.cfg (v2 15 16))
             Example.centred_15_9 in
  MapProxy.curCenterAreaId Example.centred_15_9 = 4 /\
  MapUtil.getAreaIdByCellPoint Example.cfg 15 16 = 7 /\
  r.2 = [ MapProxy.mapEenterChange (v2 15 16);
          MapProxy.mapShowAreaChange (v2 15 16) 7
            (list_difference (MapUtil.get9GridVaildAreaIds Example.cfg 7)
                             (MapUtil.get9GridVaildAreaIds Example.cfg 4))
            (list_difference (MapUtil.get9GridVaildAreaIds Example.cfg 4)
                             (MapUtil.get9GridVaildAreaIds Example.cfg 7)) ].
Proof.
  split; [reflexivity |]. split; [reflexivity |].
  apply (setCurCenterPoint_pan_diff Example.cfg Example.vsize (v2 15 16)
           (MapUtil.mapCellToPixelPoint Example.cfg (v2 15 16))
           Example.centred_15_9).
  - apply setCurCenterPoint_store_ok, store_ok_empty.
  - vm_compute. discriminate.
  - vm_compute. discriminate.
  - vm_compute. discriminate.
  - vm_compute. reflexivity.
Defined.

(** ** The code at the inputs where it departs from the specification *)

(** C1 (code at the failing input): on the map of 80x80 cells, panning
    from cell (39,36) in area 44 to cell (40,36) in area 45 is a continuous
    pan (the descriptors are fuzzily equal); addIds is [56; 46; 36], so
    area 45 is no element of it, and yet the priority list is [45] and
    [45; 56; 46; 36] is appended to the fetch queue: [addIds.indexOf(45)]
    is -1, which is truthy. *)
Theorem setCurCenterPoint_pan_priority_not_added :
  let this := Example.centred_39_36 in
  let r := MapProxy.setCurCenterPoint Example.cfg80 Example.vsize (v2 40 36)
             (MapUtil.mapCellToPixelPoint Example.cfg80 (v2 40 36)) this in
  let change := MapProxy.incrementalChange Example.cfg80 44
                  (MapProxy.getMapAreaData Example.cfg80 45 this).1
                  (MapUtil.get9GridVaildAreaIds Example.cfg80 45) in
  MapProxy.curCenterAreaId this = 44 /\
  MapUtil.getAreaIdByCellPoint Example.cfg80 40 36 = 45 /\
  MapAreaData.fuzzyEquals (MapProxy.getMapAreaData Example.cfg80 44 this).1
    (Some (MapProxy.getMapAreaData Example.cfg80 45 this).1) 3 = true /\
  MapProxy.addIds change = [56; 46; 36] /\
  indexOf (MapProxy.addIds change) 45 = -1 /\
  MapProxy.firstAreaIds change = Some [45] /\
  r.2 = [ MapProxy.mapEenterChange (v2 40 36);
          MapProxy.mapShowAreaChange (v2 40 36) 45 [56; 46; 36] [53; 43; 33] ] /\
  MapProxy.qryAreaIds r.1.2 = MapProxy.qryAreaIds this ++ [45; 56; 46; 36].
Proof.
  vm_compute. repeat split.
Qed.

(** The same in the example configuration (3x3 areas), from cell (15,9) in
    area 4 to cell (16,9) in area 5: nothing is added, and area 5 is
    queued. *)
Lemma setCurCenterPoint_pan_priority_small_grid :
  let this := Example.centred_15_9 in
  let r := MapProxy.setCurCenterPoint Example.cfg Example.vsize (v2 16 9)
             (MapUtil.mapCellToPixelPoint Example.cfg (v2 16 9)) this in
  r.2 = [ MapProxy.mapEenterChange (v2 16 9);
          MapProxy.mapShowAreaChange (v2 16 9) 5 [] [0] ] /\
  MapProxy.qryAreaIds r.1.2 = MapProxy.qryAreaIds this ++ [5].
Proof.
  vm_compute. repeat split.
Qed.

(** C2 (code at the failing input): in the example configuration (area side
    8, area grid 3x3) the first call, with cell (0,0), is an area transition
    with removeIds empty and addIds the valid nine-grid of area 0 -- but
    that list has 5 ids, not 4: the raw neighbour 0 + 3 - 1 = 2 passes
    [isVaildAreaId] although area 2 has area coordinates (2,0) and is no
    neighbour of area 0. *)
Theorem setCurCenterPoint_first_call_corner (pixelPoint : Vec2.t Q) :
  let r := MapProxy.setCurCenterPoint Example.cfg Example.vsize (v2 0 0)
             pixelPoint MapProxy.new in
  MapUtil.areaCellSize Example.cfg = Size.mk 8 8 /\
  MapUtil.areaSize Example.cfg = Size.mk 3 3 /\
  MapUtil.get9GridVaildAreaIds Example.cfg 0 = [2; 3; 4; 0; 1] /\
  MapUtil.getAreaPointById Example.cfg 2 = v2 2 0 /\
  MapUtil.isVaildAreaPoint Example.cfg (v2 (0 - 1) (0 + 1)) = false /\
  r.2 = [ MapProxy.mapEenterChange (v2 0 0);
          MapProxy.mapShowAreaChange (v2 0 0) 0 [2; 3; 4; 0; 1] [] ].
Proof.
  repeat split; reflexivity.
Qed.

(** ** The examples of the specification, run on the embedding *)

Example cell_ids :
  MapUtil.getIdByCellPoint Example.cfg 0 0 = 0 /\
  MapUtil.getIdByCellPoint Example.cfg 19 19 = 399 /\
  MapUtil.getCellPointById Example.cfg 399 = v2 19 19.
Proof. repeat split; reflexivity. Qed.

Example area_partition :
  MapUtil.areaCellSize Example.cfg = Size.mk 8 8 /\
  MapUtil.areaSize Example.cfg = Size.mk 3 3 /\
  MapUtil.getIdByAreaPoint Example.cfg 0 0 = 0 /\
  MapUtil.getIdByAreaPoint Example.cfg 2 2 = 8 /\
  MapUtil.areaCount Example.cfg = 9 /\
  MapUtil.isVaildAreaId Example.cfg 8 = true /\
  MapUtil.isVaildAreaId Example.cfg 9 = false.
Proof. repeat split; reflexivity. Qed.

Example first_call_queue :
  MapProxy.qryAreaIds Example.centred_15_9 = [4; 1; 5; 6; 7; 8; 3; 0; 2] /\
  MapProxy.curCenterPoint Example.centred_15_9 = Some (v2 15 9) /\
  MapProxy.curCenterAreaId Example.centred_15_9 = 4.
Proof. repeat split; vm_compute; reflexivity. Qed.

(** * Further properties of the coordinate engine *)

(** ** Ids and points *)

Lemma point_of_id (w x y : Z) :
  0 <= x < w -> 0 <= y ->
  Z.rem (x + y * w) w = x /\ (x + y * w) / w = y.
Proof.
  intros Hx Hy.
  assert (Hid : 0 <= x + y * w) by nia.
  rewrite Z.rem_mod_nonneg by lia. split.
  - symmetry. apply (Z.mod_unique _ _ y); lia.
  - symmetry. apply (Z.div_unique _ _ _ x); lia.
Qed.

Lemma id_of_point (w id : Z) :
  0 < w -> 0 <= id -> Z.rem id w + id / w * w = id.
Proof.
  intros Hw Hid. rewrite Z.rem_mod_nonneg by lia.
  pose proof (Z.div_mod id w ltac:(lia)). lia.
Qed.

(** [x] of the point of an id is in range exactly when the id is not
    negative; [y] is in range exactly when the id is below [w * h]. *)
Lemma point_of_id_range (w h id : Z) :
  0 < w ->
  (0 <= Z.rem id w < w /\ 0 <= id / w < h) <-> 0 <= id < w * h.
Proof.
  intros Hw. split.
  - intros [Hx Hy].
    assert (0 <= id).
    { destruct (Z_lt_le_dec id 0) as [Hneg | Hpos]; [| exact Hpos].
      assert (id / w < 0) by (apply Z.div_lt_upper_bound; lia). lia. }
    split; [assumption |].
    pose proof (Z.div_mod id w ltac:(lia)).
    pose proof (Z.mod_pos_bound id w Hw). nia.
  - intros [Hlo Hhi]. rewrite Z.rem_mod_nonneg by lia.
    pose proof (Z.mod_pos_bound id w Hw).
    split; [lia |]. split; [apply Z.div_pos; lia |].
    apply Z.div_lt_upper_bound; lia.
Qed.

(** X1: a valid cell point and its id determine each other: the id lies in
    [0, mapCellCount) and [getCellPointById] returns the point; conversely,
    when the map width is positive, every id in [0, mapCellCount) gives a
    valid cell point whose id it is. *)
Theorem cell_id_round_trip (cfg : MapUtil.Config) :
  (forall p : Vec2.t Z,
     MapUtil.isVaildCellPoint cfg p = true ->
     let id := MapUtil.getIdByCellPoint cfg (Vec2.x p) (Vec2.y p) in
     0 <= id < MapUtil.mapCellCount cfg /\ MapUtil.getCellPointById cfg id = p) /\
  (forall id : Z,
     0 < Size.width (MapUtil.mapSize cfg) ->
     0 <= id < MapUtil.mapCellCount cfg ->
     let p := MapUtil.getCellPointById cfg id in
     MapUtil.isVaildCellPoint cfg p = true /\
     MapUtil.getIdByCellPoint cfg (Vec2.x p) (Vec2.y p) = id).
Proof.
  unfold MapUtil.isVaildCellPoint, MapUtil.getIdByCellPoint,
    MapUtil.getCellPointById, MapUtil.mapCellCount.
  set (w := Size.width (MapUtil.mapSize cfg)).
  set (h := Size.height (MapUtil.mapSize cfg)).
  split.
  - intros [x y] Hvalid. cbn [Vec2.x Vec2.y] in *.
    apply andb_prop in Hvalid as [Hvalid Hy2].
    apply andb_prop in Hvalid as [Hvalid Hy1].
    apply andb_prop in Hvalid as [Hx1 Hx2].
    apply Z.leb_le in Hx1, Hy1. apply Z.ltb_lt in Hx2, Hy2.
    destruct (point_of_id w x y) as [Hrem Hdiv]; [lia | lia |].
    split; [nia | now rewrite Hrem, Hdiv].
  - intros id Hw Hid. cbn [Vec2.x Vec2.y].
    pose proof (proj2 (point_of_id_range w h id Hw) Hid) as [Hx Hy].
    split; [| now apply id_of_point; lia].
    repeat (apply andb_true_intro; split);
      first [apply Z.leb_le | apply Z.ltb_lt]; lia.
Qed.

(** X2: when the area grid has a positive width, an area id is valid
    exactly when its area point is valid, and then the point gives the id
    back; a valid area point has a valid id and is the point of that id. *)
Theorem area_id_round_trip (cfg : MapUtil.Config) :
  0 < Size.width (MapUtil.areaSize cfg) ->
  (forall id : Z,
     MapUtil.isVaildAreaPoint cfg (MapUtil.getAreaPointById cfg id)
     = MapUtil.isVaildAreaId cfg id) /\
  (forall id : Z,
     MapUtil.isVaildAreaId cfg id = true ->
     let p := MapUtil.getAreaPointById cfg id in
     MapUtil.getIdByAreaPoint cfg (Vec2.x p) (Vec2.y p) = id) /\
  (forall p : Vec2.t Z,
     MapUtil.isVaildAreaPoint cfg p = true ->
     let id := MapUtil.getIdByAreaPoint cfg (Vec2.x p) (Vec2.y p) in
     MapUtil.isVaildAreaId cfg id = true /\ MapUtil.getAreaPointById cfg id = p).
Proof.
  intros Hw.
  unfold MapUtil.isVaildAreaPoint, MapUtil.getIdByAreaPoint,
    MapUtil.getAreaPointById, MapUtil.isVaildAreaId, MapUtil.areaCount.
  set (w := Size.width (MapUtil.areaSize cfg)) in *.
  set (h := Size.height (MapUtil.areaSize cfg)).
  split; [| split].
  - intros id. cbn [Vec2.x Vec2.y].
    pose proof (point_of_id_range w h id Hw) as Hiff.
    destruct ((0 <=? id) && (id <? w * h)) eqn:Hid.
    + apply andb_prop in Hid as [H1 H2].
      apply Z.leb_le in H1. apply Z.ltb_lt in H2.
      destruct (proj2 Hiff (conj H1 H2)) as [Hx Hy].
      repeat (apply andb_true_intro; split);
        first [apply Z.leb_le | apply Z.ltb_lt]; lia.
    + apply Bool.not_true_is_false. intros Hvalid.
      apply andb_prop in Hvalid as [Hvalid Hy2].
      apply andb_prop in Hvalid as [Hvalid Hy1].
      apply andb_prop in Hvalid as [Hx1 Hx2].
      apply Z.leb_le in Hx1, Hy1. apply Z.ltb_lt in Hx2, Hy2.
      destruct (proj1 Hiff (conj (conj Hx1 Hx2) (conj Hy1 Hy2))) as [H1 H2].
      apply Bool.andb_false_iff in Hid as [Hid | Hid];
        [apply Z.leb_gt in Hid | apply Z.ltb_ge in Hid]; lia.
  - intros id Hvalid. cbn [Vec2.x Vec2.y].
    apply andb_prop in Hvalid as [H1 _]. apply Z.leb_le in H1.
    now apply id_of_point.
  - intros [x y] Hvalid. cbn [Vec2.x Vec2.y] in *.
    apply andb_prop in Hvalid as [Hvalid Hy2].
    apply andb_prop in Hvalid as [Hvalid Hy1].
    apply andb_prop in Hvalid as [Hx1 Hx2].
    apply Z.leb_le in Hx1, Hy1. apply Z.ltb_lt in Hx2, Hy2.
    destruct (point_of_id w x y) as [Hrem Hdiv]; [lia | lia |].
    split; [| now rewrite Hrem, Hdiv].
    apply andb_true_intro; split; [apply Z.leb_le | apply Z.ltb_lt]; nia.
Qed.

Lemma area_id_round_trip_witness :
  MapUtil.isVaildAreaPoint Example.cfg (MapUtil.getAreaPointById Example.cfg 7)
  = MapUtil.isVaildAreaId Example.cfg 7.
Proof.
  assert (Hw : 0 < Size.width (MapUtil.areaSize Example.cfg)) by reflexivity.
  destruct (area_id_round_trip Example.cfg Hw) as (Hvalid & _ & _).
  exact (Hvalid 7).
Defined.

(** ** The nine-grid of areas *)

Lemma isVaildAreaPoint_spec (cfg : MapUtil.Config) (p : Vec2.t Z) :
  MapUtil.isVaildAreaPoint cfg p = true <->
  (0 <= Vec2.x p < Size.width (MapUtil.areaSize cfg)) /\
  (0 <= Vec2.y p < Size.height (MapUtil.areaSize cfg)).
Proof.
  unfold MapUtil.isVaildAreaPoint.
  rewrite !Bool.andb_true_iff, !Z.leb_le, !Z.ltb_lt. tauto.
Qed.

Lemma isVaildAreaId_spec (cfg : MapUtil.Config) (id : Z) :
  MapUtil.isVaildAreaId cfg id = true <-> 0 <= id < MapUtil.areaCount cfg.
Proof.
  unfold MapUtil.isVaildAreaId.
  rewrite Bool.andb_true_iff, Z.leb_le, Z.ltb_lt. tauto.
Qed.

Lemma valid_area_point_id (cfg : MapUtil.Config) (p : Vec2.t Z) :
  MapUtil.isVaildAreaPoint cfg p = true ->
  MapUtil.isVaildAreaId cfg (MapUtil.getIdByAreaPoint cfg (Vec2.x p) (Vec2.y p)) = true.
Proof.
  rewrite isVaildAreaPoint_spec, isVaildAreaId_spec.
  unfold MapUtil.getIdByAreaPoint, MapUtil.areaCount. nia.
Qed.

Lemma elem_of_get9GridVaildAreaIds (cfg : MapUtil.Config) (id i : Z) :
  i ∈ MapUtil.get9GridVaildAreaIds cfg id <->
  i ∈ MapUtil.get9GridAreaIds cfg id /\ MapUtil.isVaildAreaId cfg i = true.
Proof.
  unfold MapUtil.get9GridVaildAreaIds.
  rewrite !list_elem_of_In. apply filter_In.
Qed.

(** X3: the valid nine-grid holds valid ids only; it holds the centre id
    exactly when that id is valid; and for a valid area point it holds the
    id of every valid area point at most one step away in x and in y (so no
    true neighbour inside the grid is ever left out). *)
Theorem get9GridVaildAreaIds_neighbours (cfg : MapUtil.Config) :
  (forall id i, i ∈ MapUtil.get9GridVaildAreaIds cfg id ->
                MapUtil.isVaildAreaId cfg i = true) /\
  (forall id, id ∈ MapUtil.get9GridVaildAreaIds cfg id <->
              MapUtil.isVaildAreaId cfg id = true) /\
  (forall p q : Vec2.t Z,
     MapUtil.isVaildAreaPoint cfg p = true ->
     MapUtil.isVaildAreaPoint cfg q = true ->
     Z.abs (Vec2.x q - Vec2.x p) <= 1 ->
     Z.abs (Vec2.y q - Vec2.y p) <= 1 ->
     MapUtil.getIdByAreaPoint cfg (Vec2.x q) (Vec2.y q)
     ∈ MapUtil.get9GridVaildAreaIds cfg
         (MapUtil.getIdByAreaPoint cfg (Vec2.x p) (Vec2.y p))).
Proof.
  split; [| split].
  - intros id i Hi. now apply elem_of_get9GridVaildAreaIds in Hi.
  - intros id. rewrite elem_of_get9GridVaildAreaIds.
    unfold MapUtil.get9GridAreaIds. split; [tauto |].
    intros Hvalid. split; [| exact Hvalid].
    rewrite !elem_of_cons. tauto.
  - intros [px py] [qx qy] Hp Hq Hdx Hdy. cbn [Vec2.x Vec2.y] in *.
    apply elem_of_get9GridVaildAreaIds.
    split; [| exact (valid_area_point_id cfg (v2 qx qy) Hq)].
    unfold MapUtil.get9GridAreaIds, MapUtil.getIdByAreaPoint.
    set (w := Size.width (MapUtil.areaSize cfg)).
    rewrite !elem_of_cons.
    assert (Hx : qx = px - 1 \/ qx = px \/ qx = px + 1) by lia.
    assert (Hy : qy = py - 1 \/ qy = py \/ qy = py + 1) by lia.
    destruct Hx as [-> | [-> | ->]], Hy as [-> | [-> | ->]]; lia.
Qed.

Lemma get9GridVaildAreaIds_neighbours_witness :
  MapUtil.getIdByAreaPoint Example.cfg 1 0
  ∈ MapUtil.get9GridVaildAreaIds Example.cfg (MapUtil.getIdByAreaPoint Example.cfg 0 0).
Proof.
  destruct (get9GridVaildAreaIds_neighbours Example.cfg) as (_ & _ & Hnear).
  apply (Hnear (v2 0 0) (v2 1 0)).
  - reflexivity.
  - reflexivity.
  - cbn. lia.
  - cbn. lia.
Defined.

Lemma get9GridAreaIds_NoDup (cfg : MapUtil.Config) (id : Z) :
  3 <= Size.width (MapUtil.areaSize cfg) ->
  NoDup (MapUtil.get9GridAreaIds cfg id).
Proof.
  intros Hw. unfold MapUtil.get9GridAreaIds.
  set (w := Size.width (MapUtil.areaSize cfg)) in *.
  repeat (apply NoDup_cons_2;
          [rewrite ?elem_of_cons, elem_of_nil; lia |]).
  apply NoDup_nil_2.
Qed.

(** X4: when the area grid is at least 3 areas wide, the valid nine-grid
    lists no id twice and has at most 9 ids. *)
Theorem get9GridVaildAreaIds_NoDup (cfg : MapUtil.Config) (id : Z) :
  3 <= Size.width (MapUtil.areaSize cfg) ->
  NoDup (MapUtil.get9GridVaildAreaIds cfg id) /\
  (length (MapUtil.get9GridVaildAreaIds cfg id) <= 9)%nat.
Proof.
  intros Hw. split.
  - unfold MapUtil.get9GridVaildAreaIds.
    apply NoDup_ListNoDup, List.NoDup_filter, NoDup_ListNoDup.
    apply get9GridAreaIds_NoDup, Hw.
  - unfold MapUtil.get9GridVaildAreaIds.
    etransitivity; [apply List.filter_length_le | reflexivity].
Qed.

Lemma get9GridVaildAreaIds_NoDup_witness :
  NoDup (MapUtil.get9GridVaildAreaIds Example.cfg 4) /\
  (length (MapUtil.get9GridVaildAreaIds Example.cfg 4) <= 9)%nat.
Proof.
  apply (get9GridVaildAreaIds_NoDup Example.cfg 4). vm_compute. discriminate.
Defined.

(** In an area grid only 2 areas wide the same id is listed twice: with a
    20x20 map and a viewport 1280 pixels high the area side is 12, the grid
    is 2x2, and the valid nine-grid of area 0 is [1; 2; 3; 0; 1]. *)
Lemma get9GridVaildAreaIds_width_2 :
  let cfg := MapUtil.initMapConfig Example.map (Size.mk 720%Q 1280%Q) in
  MapUtil.areaSize cfg = Size.mk 2 2 /\
  MapUtil.get9GridVaildAreaIds cfg 0 = [1; 2; 3; 0; 1].
Proof.
  split; reflexivity.
Qed.

Lemma absent_in_grid (cfg : MapUtil.Config) (id a : Z) :
  a ∈ MapUtil.get9GridAreaIds cfg id ->
  MapUtil.isVaildAreaId cfg a = true ->
  MapProxy.absent (MapUtil.get9GridVaildAreaIds cfg id) a = false.
Proof.
  intros Hin Hvalid. apply Bool.not_true_is_false. intros Habs.
  apply absent_true in Habs. apply Habs.
  apply elem_of_get9GridVaildAreaIds. now split.
Qed.

Section FilterTwice.
Context {A : Type} (f g : A -> bool).

Lemma filter2_nil : (length (List.filter f (List.filter g [])) <= 0)%nat.
Proof. reflexivity. Qed.

Lemma filter2_skip (a : A) (l : list A) (n : nat) :
  (g a = true -> f a = false) ->
  (length (List.filter f (List.filter g l)) <= n)%nat ->
  (length (List.filter f (List.filter g (a :: l))) <= n)%nat.
Proof.
  intros Hskip Hl. cbn. destruct (g a); [| exact Hl].
  cbn. now rewrite Hskip.
Qed.

Lemma filter2_count (a : A) (l : list A) (n : nat) :
  (length (List.filter f (List.filter g l)) <= n)%nat ->
  (length (List.filter f (List.filter g (a :: l))) <= S n)%nat.
Proof.
  intros Hl. cbn. destruct (g a); [| lia].
  cbn. destruct (f a); cbn; lia.
Qed.
End FilterTwice.

(** One element of the other nine-grid: skipped when it is provably an
    element of the grid filtered against, counted otherwise. *)
Ltac grid_step cfg :=
  first
    [ apply filter2_skip;
      [ let Hv := fresh "Hv" in
        intros Hv; apply absent_in_grid;
        [ unfold MapUtil.get9GridAreaIds; rewrite !elem_of_cons; lia
        | exact Hv ]
      | ]
    | apply filter2_count ].

(** X5: when the view pans to the area next to the previous centre area in
    the id arithmetic (one to the right or left, or one row up or down),
    the incremental branch adds at most 3 areas and removes at most 3. *)
Theorem incrementalChange_adjacent (cfg : MapUtil.Config) (cur new : Z)
    (areaData : MapAreaData.t) :
  new = cur + 1 \/ new = cur - 1 \/
  new = cur + Size.width (MapUtil.areaSize cfg) \/
  new = cur - Size.width (MapUtil.areaSize cfg) ->
  let c := MapProxy.incrementalChange cfg cur areaData
             (MapUtil.get9GridVaildAreaIds cfg new) in
  (length (MapProxy.addIds c) <= 3)%nat /\
  (length (MapProxy.removeIds c) <= 3)%nat.
Proof.
  intros Hadj. unfold MapProxy.incrementalChange.
  cbn [MapProxy.addIds MapProxy.removeIds].
  split.
  - set (oldIds := MapUtil.get9GridVaildAreaIds cfg cur).
    unfold MapUtil.get9GridVaildAreaIds, MapUtil.get9GridAreaIds at 1.
    destruct Hadj as [-> | [-> | [-> | ->]]];
      repeat grid_step cfg; apply filter2_nil.
  - set (newIds := MapUtil.get9GridVaildAreaIds cfg new).
    unfold MapUtil.get9GridVaildAreaIds, MapUtil.get9GridAreaIds at 1.
    destruct Hadj as [Hd | [Hd | [Hd | Hd]]];
      assert (Hcur : cur = new - 1 \/ cur = new + 1
                     \/ cur = new - Size.width (MapUtil.areaSize cfg)
                     \/ cur = new + Size.width (MapUtil.areaSize cfg)) by lia;
      clear Hd; destruct Hcur as [-> | [-> | [-> | ->]]];
      repeat grid_step cfg; apply filter2_nil.
Qed.

Lemma incrementalChange_adjacent_witness :
  let c := MapProxy.incrementalChange Example.cfg80 44
             (MapProxy.makeAreaData Example.cfg80 45)
             (MapUtil.get9GridVaildAreaIds Example.cfg80 45) in
  MapProxy.addIds c = [56; 46; 36] /\
  (length (MapProxy.addIds c) <= 3)%nat /\
  (length (MapProxy.removeIds c) <= 3)%nat.
Proof.
  split; [reflexivity |].
  apply (incrementalChange_adjacent Example.cfg80 44 45).
  left. reflexivity.
Defined.

(** ** Cells and their areas *)

(** X6: with a positive area side, a cell lies inside the cell rectangle of
    its area (start inclusive, end exclusive), and its area is the only
    area whose rectangle holds the cell. *)
Theorem cell_in_its_area (cfg : MapUtil.Config) (x y : Z) :
  0 < Size.width (MapUtil.areaCellSize cfg) ->
  0 < Size.height (MapUtil.areaCellSize cfg) ->
  let inside (a : Vec2.t Z) :=
    let s := MapUtil.getStartCellPointByAreaPoint cfg (Vec2.x a) (Vec2.y a) in
    let e := MapUtil.getEndCellPointByAreaPoint cfg (Vec2.x a) (Vec2.y a) in
    Vec2.x s <= x < Vec2.x e /\ Vec2.y s <= y < Vec2.y e in
  inside (MapUtil.getAreaPointByCellPoint cfg x y) /\
  (forall a, inside a -> a = MapUtil.getAreaPointByCellPoint cfg x y).
Proof.
  intros Hw Hh. cbv zeta.
  unfold MapUtil.getStartCellPointByAreaPoint, MapUtil.getEndCellPointByAreaPoint,
    MapUtil.getAreaPointByCellPoint.
  set (w := Size.width (MapUtil.areaCellSize cfg)) in *.
  set (h := Size.height (MapUtil.areaCellSize cfg)) in *.
  cbn [Vec2.x Vec2.y].
  pose proof (Z.div_mod x w ltac:(lia)) as Hx.
  pose proof (Z.mod_pos_bound x w Hw) as Hxm.
  pose proof (Z.div_mod y h ltac:(lia)) as Hy.
  pose proof (Z.mod_pos_bound y h Hh) as Hym.
  split; [lia |].
  intros [ax ay]. cbn [Vec2.x Vec2.y]. intros [Hax Hay].
  f_equal.
  - apply (Z.div_unique x w ax (x - w * ax)); lia.
  - apply (Z.div_unique y h ay (y - h * ay)); lia.
Qed.

Lemma cell_in_its_area_witness :
  MapUtil.getAreaPointByCellPoint Example.cfg 15 9 = v2 1 1 /\
  forall a : Vec2.t Z,
    (let s := MapUtil.getStartCellPointByAreaPoint Example.cfg (Vec2.x a) (Vec2.y a) in
     let e := MapUtil.getEndCellPointByAreaPoint Example.cfg (Vec2.x a) (Vec2.y a) in
     Vec2.x s <= 15 < Vec2.x e /\ Vec2.y s <= 9 < Vec2.y e) ->
    a = MapUtil.getAreaPointByCellPoint Example.cfg 15 9.
Proof.
  split; [reflexivity |].
  apply (cell_in_its_area Example.cfg 15 9); reflexivity.
Defined.

Lemma Qceiling_div_mul (a h : Z) :
  0 < h -> a <= Qceiling (inject_Z a / inject_Z h) * h.
Proof.
  intros Hh.
  pose proof (Qle_ceiling (inject_Z a / inject_Z h)) as Hc.
  set (c := Qceiling (inject_Z a / inject_Z h)) in *.
  assert (Hhq : (inject_Z 0 < inject_Z h)%Q) by (rewrite <- Zlt_Qlt; exact Hh).
  change (inject_Z 0) with 0%Q in Hhq.
  rewrite Zle_Qle, inject_Z_mult.
  assert (Ha : (inject_Z a == inject_Z a / inject_Z h * inject_Z h)%Q)
    by (field; lra).
  rewrite Ha. apply Qmult_le_compat_r; [exact Hc | lra].
Qed.

Lemma showH_pos (vh th : Q) (mapH : Z) :
  (0 <= vh)%Q -> (0 < th)%Q -> 0 < mapH -> 0 < MapUtil.showH vh th mapH.
Proof.
  intros Hvh Hth HmapH. unfold MapUtil.showH.
  assert (Hq : (0 <= vh / th / 2)%Q).
  { apply Qle_shift_div_l; [lra |]. rewrite Qmult_0_l.
    apply Qle_shift_div_l; [exact Hth |]. lra. }
  apply Qceiling_resp_le in Hq. change (Qceiling 0) with 0 in Hq. lia.
Qed.

(** X7: in a configuration built by [initMapConfig] from a non-negative
    viewport height and a positive tile height, every valid cell lies in a
    valid area: both its area point and its area id are valid. *)
Theorem valid_cell_valid_area (map : MapUtil.TiledMap) (vsize : Size.t Q)
    (p : Vec2.t Z) :
  let cfg := MapUtil.initMapConfig map vsize in
  (0 <= Size.height vsize)%Q ->
  (0 < Size.height (MapUtil.getTileSize map))%Q ->
  MapUtil.isVaildCellPoint cfg p = true ->
  MapUtil.isVaildAreaPoint cfg
    (MapUtil.getAreaPointByCellPoint cfg (Vec2.x p) (Vec2.y p)) = true /\
  MapUtil.isVaildAreaId cfg
    (MapUtil.getAreaIdByCellPoint cfg (Vec2.x p) (Vec2.y p)) = true.
Proof.
  intros cfg Hvh Hth Hvalid.
  assert (Hpoint : MapUtil.isVaildAreaPoint cfg
            (MapUtil.getAreaPointByCellPoint cfg (Vec2.x p) (Vec2.y p)) = true).
  { unfold MapUtil.isVaildCellPoint in Hvalid.
    rewrite !Bool.andb_true_iff, !Z.leb_le, !Z.ltb_lt in Hvalid.
    destruct Hvalid as [[[Hx1 Hx2] Hy1] Hy2].
    apply isVaildAreaPoint_spec.
    unfold MapUtil.getAreaPointByCellPoint, cfg in *.
    cbn [MapUtil.initMapConfig MapUtil.areaSize MapUtil.areaCellSize
         MapUtil.mapSize Size.width Size.height Vec2.x Vec2.y] in *.
    set (h := MapUtil.showH _ _ _) in *.
    assert (Hh : 0 < h) by (apply showH_pos; [assumption | assumption | lia]).
    pose proof (Qceiling_div_mul (Size.width (MapUtil.getMapSize map)) h Hh).
    pose proof (Qceiling_div_mul (Size.height (MapUtil.getMapSize map)) h Hh).
    repeat split.
    - apply Z.div_pos; lia.
    - apply Z.div_lt_upper_bound; lia.
    - apply Z.div_pos; lia.
    - apply Z.div_lt_upper_bound; lia. }
  split; [exact Hpoint |].
  exact (valid_area_point_id cfg _ Hpoint).
Qed.

Lemma valid_cell_valid_area_witness :
  MapUtil.isVaildAreaId Example.cfg (MapUtil.getAreaIdByCellPoint Example.cfg 19 19)
  = true.
Proof.
  apply (valid_cell_valid_area Example.map Example.vsize (v2 19 19)).
  - vm_compute. discriminate.
  - reflexivity.
  - reflexivity.
Defined.

(** The area id that one pixel point contributes. *)
Lemma pushVaildAreaId_spec (cfg : MapUtil.Config) (lst : list Z) (p : Vec2.t Q) :
  let c := MapUtil.mapPixelToCellPoint cfg p in
  let i := MapUtil.getAreaIdByCellPoint cfg (Vec2.x c) (Vec2.y c) in
  MapUtil.pushVaildAreaId cfg lst p
  = if MapUtil.isVaildAreaId cfg i && MapProxy.absent lst i then lst ++ [i] else lst.
Proof. reflexivity. Qed.

Lemma getVaildAreaIdsByPixelPoints_fold (cfg : MapUtil.Config)
    (points : list (Vec2.t Q)) (acc : list Z) :
  let areaOf (p : Vec2.t Q) :=
    let c := MapUtil.mapPixelToCellPoint cfg p in
    MapUtil.getAreaIdByCellPoint cfg (Vec2.x c) (Vec2.y c) in
  let r := fold_left (MapUtil.pushVaildAreaId cfg) points acc in
  (NoDup acc -> NoDup r) /\
  (length r <= length acc + length points)%nat /\
  (forall i, i ∈ r <->
     i ∈ acc \/ (MapUtil.isVaildAreaId cfg i = true /\ exists p, p ∈ points /\ areaOf p = i)).
Proof.
  cbv zeta. revert acc. induction points as [| p points IH]; intros acc; cbn [fold_left].
  - split; [tauto |]. split; [cbn; lia |].
    intros i. split; [tauto |].
    intros [Hi | (_ & p & Hp & _)]; [exact Hi | now apply elem_of_nil in Hp].
  - rewrite pushVaildAreaId_spec. cbv zeta.
    set (i0 := MapUtil.getAreaIdByCellPoint cfg _ _).
    destruct (MapUtil.isVaildAreaId cfg i0 && MapProxy.absent acc i0) eqn:Hpush.
    + apply andb_prop in Hpush as [Hvalid Habs]. apply absent_true in Habs.
      destruct (IH (acc ++ [i0])) as (Hnd & Hlen & Hin).
      split; [| split].
      * intros Hacc. apply Hnd. apply NoDup_app. split; [exact Hacc |].
        split; [| apply NoDup_singleton].
        intros j Hj Hj'. apply list_elem_of_singleton in Hj' as ->. now apply Habs.
      * rewrite length_app in Hlen. cbn in *. lia.
      * intros i. rewrite Hin, elem_of_app, list_elem_of_singleton.
        split.
        -- intros [[Hi | ->] | (Hv & q & Hq & Hqi)].
           ++ now left.
           ++ right. split; [exact Hvalid |]. exists p. split; [apply elem_of_cons; now left | reflexivity].
           ++ right. split; [exact Hv |]. exists q. split; [apply elem_of_cons; now right | exact Hqi].
        -- intros [Hi | (Hv & q & Hq & Hqi)]; [now left; left |].
           apply elem_of_cons in Hq as [-> | Hq].
           ++ left. right. symmetry. exact Hqi.
           ++ right. split; [exact Hv |]. exists q. now split.
    + destruct (IH acc) as (Hnd & Hlen & Hin).
      split; [exact Hnd |]. split; [cbn; lia |].
      intros i. rewrite Hin. split.
      * intros [Hi | (Hv & q & Hq & Hqi)]; [now left |].
        right. split; [exact Hv |]. exists q. split; [apply elem_of_cons; now right | exact Hqi].
      * intros [Hi | (Hv & q & Hq & Hqi)]; [now left |].
        apply elem_of_cons in Hq as [-> | Hq].
        -- left. fold i0 in Hqi. subst i.
           apply Bool.andb_false_iff in Hpush as [Hpush | Hpush]; [congruence |].
           destruct (decide (i0 ∈ acc)) as [Hi0 | Hi0]; [exact Hi0 |].
           apply absent_true in Hi0. congruence.
        -- right. split; [exact Hv |]. exists q. now split.
Qed.

(** X8: [getVaildAreaIdsByPixelPoints] lists no id twice, lists at most as
    many ids as it is given points (none for no point), and lists exactly
    the valid ids among the areas of the cells under the points. *)
Theorem getVaildAreaIdsByPixelPoints_spec (cfg : MapUtil.Config)
    (points : list (Vec2.t Q)) :
  let r := MapUtil.getVaildAreaIdsByPixelPoints cfg points in
  NoDup r /\
  (length r <= length points)%nat /\
  (forall i, i ∈ r <->
     MapUtil.isVaildAreaId cfg i = true /\
     exists p, p ∈ points /\
       let c := MapUtil.mapPixelToCellPoint cfg p in
       MapUtil.getAreaIdByCellPoint cfg (Vec2.x c) (Vec2.y c) = i).
Proof.
  cbv zeta. unfold MapUtil.getVaildAreaIdsByPixelPoints.
  destruct (getVaildAreaIdsByPixelPoints_fold cfg points []) as (Hnd & Hlen & Hin).
  split; [apply Hnd, NoDup_nil_2 |]. split; [exact Hlen |].
  intros i. rewrite Hin. split; [| tauto].
  intros [Hi | H]; [now apply elem_of_nil in Hi | exact H].
Qed.

Lemma cell_id_round_trip_witness :
  MapUtil.getCellPointById Example.cfg (MapUtil.getIdByCellPoint Example.cfg 19 0)
  = v2 19 0.
Proof.
  destruct (cell_id_round_trip Example.cfg) as [Hpoint _].
  destruct (Hpoint (v2 19 0)) as [_ Hback]; [reflexivity | exact Hback].
Defined.

(** ** Hit testing *)

Lemma Qabs_bounds (a : Q) : (a <= Qabs a)%Q /\ (- a <= Qabs a)%Q.
Proof.
  split; [apply Qle_Qabs |]. rewrite <- Qabs_opp. apply Qle_Qabs.
Qed.

(** X9: on a square map with positive tile sizes, every world pixel point
    strictly inside the diamond of a cell (|dx| / tileWidth + |dy| /
    tileHeight < 1/2 from the cell centre) is mapped to that cell. *)
Theorem worldPixelToMapCellPoint_diamond
    (map : MapUtil.TiledMap) (vsize : Size.t Q) (c : Vec2.t Z) (p : Vec2.t Q) :
  let cfg := MapUtil.initMapConfig map vsize in
  let centre := MapUtil.mapCellToWorldPixelPoint cfg c in
  Size.width (MapUtil.getMapSize map) = Size.height (MapUtil.getMapSize map) ->
  (0 < Size.width (MapUtil.getTileSize map))%Q ->
  (0 < Size.height (MapUtil.getTileSize map))%Q ->
  (Qabs ((Vec2.x p - Vec2.x centre) / Size.width (MapUtil.getTileSize map))
   + Qabs ((Vec2.y p - Vec2.y centre) / Size.height (MapUtil.getTileSize map))
   < 1 # 2)%Q ->
  MapUtil.worldPixelToMapCellPoint cfg p = c.
Proof.
  intros cfg centre Hsq Htw Hth Hin. destruct c as [cx cy], p as [px py].
  unfold centre, cfg, MapUtil.worldPixelToMapCellPoint,
    MapUtil.mapCellToWorldPixelPoint in *.
  revert Hin. cfg_fields. rewrite Hsq.
  set (m := inject_Z (Size.height (MapUtil.getMapSize map))).
  set (tw := Size.width (MapUtil.getTileSize map)) in *.
  set (th := Size.height (MapUtil.getTileSize map)) in *.
  rewrite inject_Z_sub, inject_Z_plus.
  set (qx := inject_Z cx). set (qy := inject_Z cy).
  intros Hin.
  assert (Htw0 : ~ (tw == 0)%Q) by lra.
  assert (Hth0 : ~ (th == 0)%Q) by lra.
  assert (Ha : ((px - (m * tw * (1 # 2) - (qy - qx) * tw * (1 # 2))) / tw
                == px / tw - (m - qy + qx) * (1 # 2))%Q) by (field; exact Htw0).
  assert (Hb : ((py - (m * th - th * (1 # 2) - (qx + qy) * th * (1 # 2))) / th
                == py / th - (m - (1 # 2) - (qx + qy) * (1 # 2)))%Q)
    by (field; exact Hth0).
  rewrite Ha, Hb in Hin.
  set (a := (px / tw - (m - qy + qx) * (1 # 2))%Q) in *.
  set (b := (py / th - (m - (1 # 2) - (qx + qy) * (1 # 2)))%Q) in *.
  destruct (Qabs_bounds a) as [Ha1 Ha2]. destruct (Qabs_bounds b) as [Hb1 Hb2].
  f_equal; apply Qfloor_unique; rewrite ?inject_Z_plus;
    change (inject_Z 1) with 1%Q; fold qx qy; unfold a, b in *; lra.
Qed.

Lemma worldPixelToMapCellPoint_diamond_witness :
  MapUtil.worldPixelToMapCellPoint Example.cfg (v2 3400%Q 980%Q) = v2 15 9.
Proof.
  apply (worldPixelToMapCellPoint_diamond Example.map Example.vsize
           (v2 15 9) (v2 3400%Q 980%Q)).
  - reflexivity.
  - reflexivity.
  - reflexivity.
  - vm_compute. reflexivity.
Defined.

Lemma Qmult_between (t lo k hi : Q) :
  (0 < t)%Q -> (lo <= k)%Q -> (k <= hi)%Q ->
  (t * lo <= t * k)%Q /\ (t * k <= t * hi)%Q.
Proof.
  intros Ht Hlo Hhi. split; apply Qmult_le_l; assumption.
Qed.

(** X10: on a square map with positive tile sizes, the centre of every
    valid cell lies inside the map's pixel rectangle [0, mapWidth *
    tileWidth] x [0, mapHeight * tileHeight], at least half a tile away from
    each edge. *)
Theorem mapCellToWorldPixelPoint_inside
    (map : MapUtil.TiledMap) (vsize : Size.t Q) (c : Vec2.t Z) :
  let cfg := MapUtil.initMapConfig map vsize in
  let tw := Size.width (MapUtil.getTileSize map) in
  let th := Size.height (MapUtil.getTileSize map) in
  let m := inject_Z (Size.height (MapUtil.getMapSize map)) in
  let p := MapUtil.mapCellToWorldPixelPoint cfg c in
  Size.width (MapUtil.getMapSize map) = Size.height (MapUtil.getMapSize map) ->
  (0 < tw)%Q -> (0 < th)%Q ->
  MapUtil.isVaildCellPoint cfg c = true ->
  (tw * (1 # 2) <= Vec2.x p)%Q /\ (Vec2.x p <= m * tw - tw * (1 # 2))%Q /\
  (th * (1 # 2) <= Vec2.y p)%Q /\ (Vec2.y p <= m * th - th * (1 # 2))%Q.
Proof.
  intros cfg tw th m p Hsq Htw Hth Hvalid. destruct c as [cx cy].
  subst p cfg. unfold MapUtil.isVaildCellPoint in Hvalid.
  cbn [MapUtil.initMapConfig MapUtil.mapSize Vec2.x Vec2.y] in Hvalid.
  rewrite !Bool.andb_true_iff, !Z.leb_le, !Z.ltb_lt, Hsq in Hvalid.
  destruct Hvalid as [[[Hx1 Hx2] Hy1] Hy2].
  unfold MapUtil.mapCellToWorldPixelPoint. cfg_fields. rewrite Hsq.
  fold tw th m.
  set (M := Size.height (MapUtil.getMapSize map)) in *.
  assert (Hk1 : (inject_Z 1 <= inject_Z (M - cy + cx))%Q)
    by (rewrite <- Zle_Qle; lia).
  assert (Hk2 : (inject_Z (M - cy + cx) <= inject_Z (2 * M - 1))%Q)
    by (rewrite <- Zle_Qle; lia).
  assert (Hs1 : (inject_Z 0 <= inject_Z (cx + cy))%Q)
    by (rewrite <- Zle_Qle; lia).
  assert (Hs2 : (inject_Z (cx + cy) <= inject_Z (2 * M - 2))%Q)
    by (rewrite <- Zle_Qle; lia).
  rewrite inject_Z_sub, inject_Z_plus.
  set (qx := inject_Z cx) in *. set (qy := inject_Z cy) in *.
  assert (E1 : inject_Z (M - cy + cx) = (m - qy + qx)%Q)
    by (now rewrite inject_Z_plus, inject_Z_sub).
  assert (E2 : inject_Z (2 * M - 1) = (2 * m - 1)%Q)
    by (now rewrite inject_Z_sub, inject_Z_mult).
  assert (E3 : inject_Z (cx + cy) = (qx + qy)%Q) by apply inject_Z_plus.
  assert (E4 : inject_Z (2 * M - 2) = (2 * m - 2)%Q)
    by (now rewrite inject_Z_sub, inject_Z_mult).
  rewrite E1 in Hk1, Hk2. rewrite E2 in Hk2.
  rewrite E3 in Hs1, Hs2. rewrite E4 in Hs2.
  change (inject_Z 0) with 0%Q in Hs1. change (inject_Z 1) with 1%Q in Hk1.
  destruct (Qmult_between tw 1 (m - qy + qx) (2 * m - 1) Htw Hk1 Hk2) as [Hx Hx'].
  destruct (Qmult_between th 0 (qx + qy) (2 * m - 2) Hth Hs1 Hs2) as [Hy Hy'].
  repeat split; lra.
Qed.

Lemma mapCellToWorldPixelPoint_inside_witness :
  let p := MapUtil.mapCellToWorldPixelPoint Example.cfg (v2 0 19) in
  (256 * (1 # 2) <= Vec2.x p)%Q /\
  (Vec2.x p <= inject_Z 20 * 256 - 256 * (1 # 2))%Q /\
  (128 * (1 # 2) <= Vec2.y p)%Q /\
  (Vec2.y p <= inject_Z 20 * 128 - 128 * (1 # 2))%Q.
Proof.
  apply (mapCellToWorldPixelPoint_inside Example.map Example.vsize (v2 0 19)).
  - reflexivity.
  - reflexivity.
  - reflexivity.
  - reflexivity.
Defined.

(** ** Border cells of cities *)

Lemma sysCityDis_cases (level : Z) :
  sysCityDis level = 1 \/ sysCityDis level = 2 \/ sysCityDis level = 3.
Proof.
  unfold sysCityDis.
  destruct (level >=? 8); [tauto |]. destruct (level >=? 5); tauto.
Qed.

(** X11: [getSideIdsForSysCity] returns 4 * (2 * dis + 1) ids (12, 20 or 28,
    the four corners twice), and an id is listed exactly when it is the id
    of a cell at Chebyshev distance dis from the city, where dis is 3 from
    level 8, 2 from level 5 and 1 below. *)
Theorem getSideIdsForSysCity_ring (cfg : MapUtil.Config) (x y level : Z) :
  let dis := sysCityDis level in
  let ids := MapUtil.getSideIdsForSysCity cfg x y level in
  Z.of_nat (length ids) = 4 * (2 * dis + 1) /\
  (forall id, id ∈ ids <->
     exists tx ty, id = MapUtil.getIdByCellPoint cfg tx ty /\
                   Z.max (Z.abs (tx - x)) (Z.abs (ty - y)) = dis).
Proof.
  cbv zeta. unfold MapUtil.getSideIdsForSysCity.
  pose proof (sysCityDis_cases level) as Hdis.
  set (dis := sysCityDis level) in *.
  split.
  - rewrite !length_app, !length_fmap, !length_seqZ. lia.
  - intros id. rewrite !elem_of_app, !list_elem_of_fmap.
    setoid_rewrite elem_of_seqZ. split.
    + intros [(tx & -> & Htx) | [(tx & -> & Htx) | [(ty & -> & Hty) | (ty & -> & Hty)]]].
      * exists tx, (y + dis). split; [reflexivity | lia].
      * exists tx, (y - dis). split; [reflexivity | lia].
      * exists (x - dis), ty. split; [reflexivity | lia].
      * exists (x + dis), ty. split; [reflexivity | lia].
    + intros (tx & ty & -> & Hmax).
      destruct (Z.eq_dec ty (y + dis)) as [-> | Hty1];
        [left; exists tx; split; [reflexivity | lia] |].
      destruct (Z.eq_dec ty (y - dis)) as [-> | Hty2];
        [right; left; exists tx; split; [reflexivity | lia] |].
      destruct (Z.eq_dec tx (x - dis)) as [-> | Htx1];
        [right; right; left; exists ty; split; [reflexivity | lia] |].
      right; right; right. exists ty. split; [f_equal |]; lia.
Qed.

(** X12: [getSideIdsForRoleCity] returns 16 ids: the ids at every offset of
    Chebyshev distance 2 except the one two rows straight down (id - 2 *
    width), and in its place the inner neighbour id - width - 1.  On a map
    at least 3 cells wide id - 2 * width is not listed at all. *)
Theorem getSideIdsForRoleCity_ring (cfg : MapUtil.Config) (id : Z) :
  let w := Size.width (MapUtil.mapSize cfg) in
  let ids := MapUtil.getSideIdsForRoleCity cfg id in
  length ids = 16%nat /\
  (forall e, e ∈ ids <->
     e = id - w - 1 \/
     exists dx dy, Z.max (Z.abs dx) (Z.abs dy) = 2 /\
                   (dx, dy) <> (0, -2) /\ e = id + dx + dy * w) /\
  (3 <= w -> (id - 2 * w) ∉ ids).
Proof.
  cbv zeta. unfold MapUtil.getSideIdsForRoleCity.
  set (w := Size.width (MapUtil.mapSize cfg)).
  split; [reflexivity |]. split.
  - intros e. rewrite !elem_of_cons, elem_of_nil. split.
    + intros H.
      repeat (destruct H as [-> | H];
              [ first [ left; lia
                      | right; eexists (-2), _; split; [| split; [| reflexivity]];
                        [lia | intros [=]]; fail
                      | idtac ] |]); try tauto.
      all: right.
      all: first
        [ exists (-2), 2; split; [lia | split; [intros [=] | lia]]
        | exists (-1), 2; split; [lia | split; [intros [=] | lia]]
        | exists 0, 2; split; [lia | split; [intros [=] | lia]]
        | exists 1, 2; split; [lia | split; [intros [=] | lia]]
        | exists 2, 2; split; [lia | split; [intros [=] | lia]]
        | exists (-2), 1; split; [lia | split; [intros [=] | lia]]
        | exists 2, 1; split; [lia | split; [intros [=] | lia]]
        | exists (-2), 0; split; [lia | split; [intros [=] | lia]]
        | exists 2, 0; split; [lia | split; [intros [=] | lia]]
        | exists (-2), (-1); split; [lia | split; [intros [=] | lia]]
        | exists 2, (-1); split; [lia | split; [intros [=] | lia]]
        | exists (-2), (-2); split; [lia | split; [intros [=] | lia]]
        | exists (-1), (-2); split; [lia | split; [intros [=] | lia]]
        | exists 1, (-2); split; [lia | split; [intros [=] | lia]]
        | exists 2, (-2); split; [lia | split; [intros [=] | lia]] ].
    + intros [-> | (dx & dy & Hmax & Hne & ->)]; [lia |].
      assert (Hdx : dx = -2 \/ dx = -1 \/ dx = 0 \/ dx = 1 \/ dx = 2) by lia.
      assert (Hdy : dy = -2 \/ dy = -1 \/ dy = 0 \/ dy = 1 \/ dy = 2) by lia.
      destruct Hdx as [-> | [-> | [-> | [-> | ->]]]],
               Hdy as [-> | [-> | [-> | [-> | ->]]]];
        try (exfalso; lia); try (now destruct Hne); lia.
  - intros Hw. rewrite !elem_of_cons, elem_of_nil. lia.
Qed.

Lemma getSideIdsForRoleCity_ring_witness :
  (210 - 2 * 20) ∉ MapUtil.getSideIdsForRoleCity Example.cfg 210.
Proof.
  destruct (getSideIdsForRoleCity_ring Example.cfg 210) as (_ & _ & Hmiss).
  apply Hmiss. vm_compute. discriminate.
Defined.

(** * Further properties of the area cache *)

Section AreaTransition.
Variable cfg : MapUtil.Config.
Variable vsize : Size.t Q.

Lemma insert_areaDataOf_lookup (m : gmap Z MapAreaData.t) (id j : Z)
    (d : MapAreaData.t) :
  m !! j = Some d ->
  <[id := Invariant.areaDataOf cfg m id]> m !! j = Some d.
Proof.
  intros Hj. destruct (decide (id = j)) as [-> | Hne].
  - rewrite lookup_insert_eq. unfold Invariant.areaDataOf. now rewrite Hj.
  - now rewrite lookup_insert_ne.
Qed.

(** What one area transition does to the proxy, whichever branch runs. *)
Lemma areaTransition_shape (areaId : Z) (pixelPoint : Vec2.t Q) (this : MapProxy.t) :
  let areaData := Invariant.areaDataOf cfg (MapProxy.mapAreaDatas this) areaId in
  let newIds := MapUtil.get9GridVaildAreaIds cfg (MapAreaData.id areaData) in
  exists change m',
    MapProxy.areaTransition cfg vsize areaId pixelPoint this
    = (change,
       MapProxy.mk (MapProxy.curCenterPoint this) areaId m'
         (MapProxy.qryAreaIds this ++ MapProxy.qryIndexs change)) /\
    (forall j d, MapProxy.mapAreaDatas this !! j = Some d -> m' !! j = Some d) /\
    (change = MapProxy.fullChange cfg vsize newIds pixelPoint \/
     change = MapProxy.incrementalChange cfg (MapProxy.curCenterAreaId this)
                areaData newIds).
Proof.
  cbv zeta. unfold MapProxy.areaTransition.
  rewrite getMapAreaData_eq.
  cbn [MapProxy.curCenterAreaId MapProxy.set_mapAreaDatas MapProxy.mapAreaDatas].
  set (m := MapProxy.mapAreaDatas this).
  set (areaData := Invariant.areaDataOf cfg m areaId).
  destruct (MapProxy.curCenterAreaId this =? -1).
  - eexists _, _. split; [reflexivity |]. split; [| now left].
    intros j d Hj. now apply insert_areaDataOf_lookup.
  - rewrite getMapAreaData_eq.
    cbn [MapProxy.curCenterAreaId MapProxy.set_mapAreaDatas MapProxy.mapAreaDatas].
    destruct (negb _).
    + eexists _, _. split; [reflexivity |]. split; [| now left].
      intros j d Hj. now apply insert_areaDataOf_lookup, insert_areaDataOf_lookup.
    + eexists _, _. split; [reflexivity |]. split; [| now right].
      intros j d Hj. now apply insert_areaDataOf_lookup, insert_areaDataOf_lookup.
Qed.

Lemma elem_of_qryIndexs (c : MapProxy.AreaChange) (i : Z) :
  i ∈ MapProxy.addIds c -> i ∈ MapProxy.qryIndexs c.
Proof.
  intros Hi. unfold MapProxy.qryIndexs, MapProxy.otherAreaIds.
  destruct (MapProxy.hasFirst (MapProxy.firstAreaIds c)); [| exact Hi].
  apply elem_of_app.
  destruct (decide (i ∈ MapProxy.firstList (MapProxy.firstAreaIds c)))
    as [Hin | Hnin]; [now left | right].
  apply list_elem_of_In, filter_In. split; [now apply list_elem_of_In |].
  now apply absent_true.
Qed.

Lemma NoDup_qryIndexs (c : MapProxy.AreaChange) :
  NoDup (MapProxy.addIds c) ->
  NoDup (MapProxy.firstList (MapProxy.firstAreaIds c)) ->
  NoDup (MapProxy.qryIndexs c).
Proof.
  intros Hadd Hfirst. unfold MapProxy.qryIndexs, MapProxy.otherAreaIds.
  destruct (MapProxy.hasFirst (MapProxy.firstAreaIds c)); [| exact Hadd].
  apply NoDup_app. split; [exact Hfirst |]. split.
  - intros i Hi Hi'. apply list_elem_of_In, filter_In in Hi' as [_ Habs].
    apply absent_true in Habs. now apply Habs.
  - apply NoDup_ListNoDup, List.NoDup_filter, NoDup_ListNoDup, Hadd.
Qed.

Lemma change_NoDup (cur : Z) (areaData : MapAreaData.t) (id : Z)
    (pixelPoint : Vec2.t Q) (change : MapProxy.AreaChange) :
  3 <= Size.width (MapUtil.areaSize cfg) ->
  change = MapProxy.fullChange cfg vsize (MapUtil.get9GridVaildAreaIds cfg id) pixelPoint \/
  change = MapProxy.incrementalChange cfg cur areaData
             (MapUtil.get9GridVaildAreaIds cfg id) ->
  NoDup (MapProxy.qryIndexs change).
Proof.
  intros Hw Hchange.
  assert (Hgrid : NoDup (MapUtil.get9GridVaildAreaIds cfg id)).
  { unfold MapUtil.get9GridVaildAreaIds.
    apply NoDup_ListNoDup, List.NoDup_filter, NoDup_ListNoDup.
    apply get9GridAreaIds_NoDup, Hw. }
  apply NoDup_qryIndexs; destruct Hchange as [-> | ->].
  - exact Hgrid.
  - cbn [MapProxy.incrementalChange MapProxy.addIds].
    apply NoDup_ListNoDup, List.NoDup_filter, NoDup_ListNoDup, Hgrid.
  - cbn [MapProxy.fullChange MapProxy.firstAreaIds MapProxy.firstList].
    unfold MapUtil.getVaildAreaIdsByPixelPoints.
    destruct (getVaildAreaIdsByPixelPoints_fold cfg
                (MapProxy.screenPoints vsize pixelPoint) []) as (Hnd & _ & _).
    apply Hnd, NoDup_nil_2.
  - unfold MapProxy.incrementalChange. cbn [MapProxy.firstAreaIds].
    destruct (truthy _); cbn [MapProxy.firstList];
      [apply NoDup_singleton | apply NoDup_nil_2].
Qed.

End AreaTransition.

Lemma elem_of_qryIndexs_inv (c : MapProxy.AreaChange) (i : Z) :
  i ∈ MapProxy.qryIndexs c ->
  i ∈ MapProxy.firstList (MapProxy.firstAreaIds c) \/ i ∈ MapProxy.addIds c.
Proof.
  unfold MapProxy.qryIndexs, MapProxy.otherAreaIds.
  destruct (MapProxy.hasFirst (MapProxy.firstAreaIds c)); [| now right].
  intros Hi. apply elem_of_app in Hi as [Hi | Hi]; [now left | right].
  apply list_elem_of_In, filter_In in Hi as [Hi _]. now apply list_elem_of_In.
Qed.

(** The priority ids of a transition are valid area ids (full refresh) or
    the id of the descriptor of the new centre area (incremental). *)
Lemma firstList_change (cfg : MapUtil.Config) (vsize : Size.t Q) (cur : Z)
    (areaData : MapAreaData.t) (newIds : list Z) (pixelPoint : Vec2.t Q)
    (change : MapProxy.AreaChange) (i : Z) :
  change = MapProxy.fullChange cfg vsize newIds pixelPoint \/
  change = MapProxy.incrementalChange cfg cur areaData newIds ->
  i ∈ MapProxy.firstList (MapProxy.firstAreaIds change) ->
  MapUtil.isVaildAreaId cfg i = true \/ i = MapAreaData.id areaData.
Proof.
  intros [-> | ->].
  - cbn [MapProxy.fullChange MapProxy.firstAreaIds MapProxy.firstList].
    unfold MapUtil.getVaildAreaIdsByPixelPoints. intros Hi.
    destruct (getVaildAreaIdsByPixelPoints_fold cfg
                (MapProxy.screenPoints vsize pixelPoint) []) as (_ & _ & Hin).
    apply Hin in Hi as [Hi | [Hvalid _]]; [now apply elem_of_nil in Hi | now left].
  - unfold MapProxy.incrementalChange. cbn [MapProxy.firstAreaIds].
    destruct (truthy _); cbn [MapProxy.firstList]; intros Hi.
    + apply list_elem_of_singleton in Hi. now right.
    + now apply elem_of_nil in Hi.
Qed.

(** X13: every call of [setCurCenterPoint] returns true exactly when the
    cell differs from the stored centre, and never changes or removes a
    stored descriptor.  A call that returns false leaves the proxy as it is
    and emits nothing.  A call that returns true stores the cell and
    appends to the fetch queue without touching the pending ids; it either
    emits the centre-changed notification alone, and then appends nothing
    and keeps the centre area and the store, or emits the centre-changed
    notification followed by one visible-areas-changed notification for the
    area of the cell, and then every id of addIds is among the ids
    appended, and (for a store that satisfies the invariant) every id
    appended is an id of addIds, a valid area id or the new centre area
    id. *)
Theorem setCurCenterPoint_frame (cfg : MapUtil.Config) (vsize : Size.t Q)
    (point : Vec2.t Z) (pixelPoint : Vec2.t Q) (this : MapProxy.t) :
  let r := MapProxy.setCurCenterPoint cfg vsize point pixelPoint this in
  r.1.1 = MapProxy.centerDiffers (MapProxy.curCenterPoint this) point /\
  (forall j d, MapProxy.mapAreaDatas this !! j = Some d ->
               MapProxy.mapAreaDatas r.1.2 !! j = Some d) /\
  (r.1.1 = false -> r.1.2 = this /\ r.2 = []) /\
  (r.1.1 = true ->
   MapProxy.curCenterPoint r.1.2 = Some point /\
   exists inc,
     MapProxy.qryAreaIds r.1.2 = MapProxy.qryAreaIds this ++ inc /\
     ((r.2 = [MapProxy.mapEenterChange point] /\ inc = [] /\
       MapProxy.curCenterAreaId r.1.2 = MapProxy.curCenterAreaId this /\
       MapProxy.mapAreaDatas r.1.2 = MapProxy.mapAreaDatas this) \/
      exists addIds removeIds,
        r.2 = [ MapProxy.mapEenterChange point;
                MapProxy.mapShowAreaChange point (MapProxy.curCenterAreaId r.1.2)
                  addIds removeIds ] /\
        MapProxy.curCenterAreaId r.1.2
        = MapUtil.getAreaIdByCellPoint cfg (Vec2.x point) (Vec2.y point) /\
        (forall i, i ∈ addIds -> i ∈ inc) /\
        (Invariant.store_ok cfg (MapProxy.mapAreaDatas this) ->
         forall i, i ∈ inc ->
           i ∈ addIds \/ MapUtil.isVaildAreaId cfg i = true \/
           i = MapProxy.curCenterAreaId r.1.2))).
Proof.
  cbv zeta. unfold MapProxy.setCurCenterPoint.
  destruct (MapProxy.centerDiffers (MapProxy.curCenterPoint this) point).
  - match goal with |- context [if ?b then _ else _] => destruct b end.
    + match goal with
      | |- context [MapProxy.areaTransition cfg vsize ?a ?p ?t] =>
          destruct (areaTransition_shape cfg vsize a p t)
            as (change & m' & -> & Hkeep & Hchange)
      end.
      cbn [fst snd MapProxy.mapAreaDatas MapProxy.curCenterPoint
           MapProxy.qryAreaIds MapProxy.curCenterAreaId] in *.
      split; [reflexivity |]. split; [exact Hkeep |].
      split; [discriminate |]. intros _. split; [reflexivity |].
      exists (MapProxy.qryIndexs change). split; [reflexivity |].
      right. eexists _, _. split; [reflexivity |]. split; [reflexivity |].
      split; [apply elem_of_qryIndexs |].
      intros Hok i Hi. apply elem_of_qryIndexs_inv in Hi as [Hi | Hi]; [| now left].
      right.
      destruct (firstList_change cfg vsize _ _ _ _ _ i Hchange Hi) as [Hv | ->];
        [now left | right].
      now apply areaDataOf_id.
    + cbn [fst snd MapProxy.mapAreaDatas MapProxy.curCenterPoint MapProxy.qryAreaIds
           MapProxy.curCenterAreaId].
      split; [reflexivity |]. split; [tauto |].
      split; [discriminate |]. intros _. split; [reflexivity |].
      exists []. split; [now rewrite app_nil_r |]. left. repeat split.
  - cbn [fst snd]. split; [reflexivity |]. split; [tauto |].
    split; [now split | discriminate].
Qed.

(** X14: when the area grid is at least 3 areas wide, the ids that one call
    of [setCurCenterPoint] appends to the fetch queue are pairwise
    different. *)
Theorem setCurCenterPoint_increment_NoDup (cfg : MapUtil.Config) (vsize : Size.t Q)
    (point : Vec2.t Z) (pixelPoint : Vec2.t Q) (this : MapProxy.t) :
  3 <= Size.width (MapUtil.areaSize cfg) ->
  exists inc,
    MapProxy.qryAreaIds
      (MapProxy.setCurCenterPoint cfg vsize point pixelPoint this).1.2
    = MapProxy.qryAreaIds this ++ inc /\
    NoDup inc.
Proof.
  intros Hw. unfold MapProxy.setCurCenterPoint.
  destruct (MapProxy.centerDiffers (MapProxy.curCenterPoint this) point).
  - match goal with |- context [if ?b then _ else _] => destruct b end.
    + match goal with
      | |- context [MapProxy.areaTransition cfg vsize ?a ?p ?t] =>
          destruct (areaTransition_shape cfg vsize a p t)
            as (change & m' & -> & _ & Hchange)
      end.
      cbn [fst snd MapProxy.qryAreaIds MapProxy.curCenterAreaId] in *.
      exists (MapProxy.qryIndexs change). split; [reflexivity |].
      eapply change_NoDup; eassumption.
    + exists []. cbn. split; [now rewrite app_nil_r | apply NoDup_nil_2].
  - exists []. cbn. split; [now rewrite app_nil_r | apply NoDup_nil_2].
Qed.

Lemma setCurCenterPoint_increment_NoDup_witness :
  exists inc,
    MapProxy.qryAreaIds
      (MapProxy.setCurCenterPoint Example.cfg80 Example.vsize (v2 40 36)
         (MapUtil.mapCellToPixelPoint Example.cfg80 (v2 40 36))
         Example.centred_39_36).1.2
    = MapProxy.qryAreaIds Example.centred_39_36 ++ inc /\
    NoDup inc.
Proof.
  apply (setCurCenterPoint_increment_NoDup Example.cfg80 Example.vsize).
  vm_compute. discriminate.
Defined.

Lemma setCurCenterPoint_frame_witness :
  let r := MapProxy.setCurCenterPoint Example.cfg Example.vsize (v2 15 16)
             (MapUtil.mapCellToPixelPoint Example.cfg (v2 15 16))
             Example.centred_15_9 in
  r.1.1 = true /\ MapProxy.curCenterPoint r.1.2 = Some (v2 15 16).
Proof.
  cbv zeta.
  destruct (setCurCenterPoint_frame Example.cfg Example.vsize (v2 15 16)
              (MapUtil.mapCellToPixelPoint Example.cfg (v2 15 16))
              Example.centred_15_9) as (Hret & _ & _ & Htrue).
  split; [exact Hret | apply (Htrue Hret)].
Defined.

(** X15: a call with a new cell from an unset centre area, or into an area
    whose descriptor is not fuzzily equal (tolerance 3) to the previous
    one, is a full refresh: addIds is the whole valid nine-grid of the new
    area, removeIds is empty (the areas shown before are not reported for
    removal), and the queue receives the areas under the centre and the
    four screen corners first, then the rest of the nine-grid. *)
Theorem setCurCenterPoint_jump (cfg : MapUtil.Config) (vsize : Size.t Q)
    (point : Vec2.t Z) (pixelPoint : Vec2.t Q) (this : MapProxy.t) :
  let areaId := MapUtil.getAreaIdByCellPoint cfg (Vec2.x point) (Vec2.y point) in
  let prevId := MapProxy.curCenterAreaId this in
  let newIds := MapUtil.get9GridVaildAreaIds cfg areaId in
  let first :=
    MapUtil.getVaildAreaIdsByPixelPoints cfg (MapProxy.screenPoints vsize pixelPoint) in
  Invariant.store_ok cfg (MapProxy.mapAreaDatas this) ->
  MapProxy.curCenterPoint this <> Some point ->
  prevId = -1 \/
  (prevId <> areaId /\
   MapAreaData.fuzzyEquals (MapProxy.getMapAreaData cfg prevId this).1
     (Some (MapProxy.getMapAreaData cfg areaId this).1) 3 = false) ->
  let r := MapProxy.setCurCenterPoint cfg vsize point pixelPoint this in
  r.1.1 = true /\
  MapProxy.curCenterAreaId r.1.2 = areaId /\
  r.2 = [ MapProxy.mapEenterChange point;
          MapProxy.mapShowAreaChange point areaId newIds [] ] /\
  MapProxy.qryAreaIds r.1.2
  = MapProxy.qryAreaIds this
    ++ (if decide (first = []) then newIds
        else first ++ list_difference newIds first).
Proof.
  intros areaId prevId newIds first Hok Hpt Hjump.
  assert (Hq : forall change,
            change = MapProxy.fullChange cfg vsize newIds pixelPoint ->
            MapProxy.addIds change = newIds /\ MapProxy.removeIds change = [] /\
            MapProxy.qryIndexs change
            = if decide (first = []) then newIds
              else first ++ list_difference newIds first).
  { intros change ->. split; [reflexivity |]. split; [reflexivity |].
    unfold MapProxy.qryIndexs, MapProxy.otherAreaIds.
    cbn [MapProxy.fullChange MapProxy.firstAreaIds MapProxy.addIds
         MapProxy.hasFirst MapProxy.firstList].
    fold first. destruct first as [| i first']; [reflexivity |].
    cbn [length]. rewrite decide_False by discriminate.
    replace (0 <? Z.of_nat (S (length first'))) with true
      by (symmetry; apply Z.ltb_lt; lia).
    now rewrite filter_absent. }
  cbv zeta. unfold MapProxy.setCurCenterPoint.
  rewrite (centerDiffers_true _ _ Hpt).
  cbn [MapProxy.curCenterAreaId].
  change (MapUtil.getIdByAreaPoint cfg
            (Vec2.x (MapUtil.getAreaPointByCellPoint cfg (Vec2.x point) (Vec2.y point)))
            (Vec2.y (MapUtil.getAreaPointByCellPoint cfg (Vec2.x point) (Vec2.y point))))
    with areaId.
  fold prevId.
  replace ((prevId =? -1) || negb (prevId =? areaId)) with true.
  2:{ symmetry. apply Bool.orb_true_iff.
      destruct Hjump as [-> | [Hne _]]; [now left | right].
      apply Bool.negb_true_iff, Z.eqb_neq, Hne. }
  unfold MapProxy.areaTransition. rewrite getMapAreaData_eq.
  cbn [MapProxy.mapAreaDatas MapProxy.set_mapAreaDatas MapProxy.curCenterAreaId].
  fold prevId.
  rewrite (areaDataOf_id cfg _ areaId Hok). fold newIds.
  destruct (Hq _ eq_refl) as (Hadd & Hrem & Hqry).
  destruct (Z.eqb_spec prevId (-1)) as [He | Hset].
  - cbn [fst snd MapProxy.curCenterAreaId MapProxy.qryAreaIds].
    rewrite Hqry. repeat split.
  - destruct Hjump as [He | [Hne Hfuzzy]]; [now destruct Hset |].
    rewrite !getMapAreaData_eq in Hfuzzy. cbn [fst] in Hfuzzy.
    rewrite getMapAreaData_eq.
    cbn [MapProxy.mapAreaDatas MapProxy.set_mapAreaDatas MapProxy.curCenterAreaId].
    rewrite areaDataOf_insert_ne by (intros He; now apply Hne).
    fold prevId. rewrite Hfuzzy. cbn [negb].
    cbn [fst snd MapProxy.curCenterAreaId MapProxy.qryAreaIds].
    rewrite Hqry. repeat split.
Qed.

Lemma setCurCenterPoint_jump_witness :
  let r := MapProxy.setCurCenterPoint Example.cfg80 Example.vsize (v2 4 70)
             (MapUtil.mapCellToPixelPoint Example.cfg80 (v2 4 70))
             Example.centred_39_36 in
  MapUtil.getAreaIdByCellPoint Example.cfg80 4 70 = 80 /\
  r.2 = [ MapProxy.mapEenterChange (v2 4 70);
          MapProxy.mapShowAreaChange (v2 4 70) 80
            (MapUtil.get9GridVaildAreaIds Example.cfg80 80) [] ].
Proof.
  split; [reflexivity |].
  apply (setCurCenterPoint_jump Example.cfg80 Example.vsize (v2 4 70)
           (MapUtil.mapCellToPixelPoint Example.cfg80 (v2 4 70))
           Example.centred_39_36).
  - apply setCurCenterPoint_store_ok, store_ok_empty.
  - vm_compute. discriminate.
  - right. split; [vm_compute; discriminate | vm_compute; reflexivity].
Defined.

(** X16: in every state the proxy can reach, the stored centre area id is
    the area id of the stored centre cell (-1 while no centre is stored),
    and every stored descriptor is the one built for its key, up to the
    query timestamp. *)
Theorem reachable_invariants (cfg : MapUtil.Config) (vsize : Size.t Q)
    (this : MapProxy.t) :
  Invariant.reachable cfg vsize this ->
  Invariant.center_ok cfg this /\
  Invariant.store_ok cfg (MapProxy.mapAreaDatas this).
Proof.
  intros Hreach. split; [| now apply (reachable_store_ok cfg vsize)].
  induction Hreach as [| this _ IH | this _ IH | this id _ IH
                       | this id nowTime ok this' _ IH Hstep
                       | this point pixelPoint _ IH].
  - reflexivity.
  - exact IH.
  - reflexivity.
  - rewrite getMapAreaData_eq. exact IH.
  - unfold MapProxy.checkAndUpdateQryTimeOf in Hstep.
    destruct (MapProxy.mapAreaDatas this !! id) as [d |]; [| discriminate].
    destruct (MapAreaData.checkAndUpdateQryTime nowTime d) as [ok' d'].
    injection Hstep as _ <-. exact IH.
  - unfold MapProxy.setCurCenterPoint.
    destruct (MapProxy.centerDiffers (MapProxy.curCenterPoint this) point) eqn:Hdiff;
      [| exact IH].
    cbn [MapProxy.curCenterAreaId].
    destruct (Z.eqb_spec (MapProxy.curCenterAreaId this) (-1)) as [Hunset | Hset];
      cbn [orb].
    + match goal with
      | |- context [MapProxy.areaTransition cfg vsize ?a ?p ?t] =>
          destruct (areaTransition_shape cfg vsize a p t)
            as (change & m' & -> & _ & _)
      end.
      reflexivity.
    + match goal with |- context [negb (?a =? ?b)] =>
        destruct (Z.eqb_spec a b) as [Hsame | Hother] end; cbn [negb].
      * unfold Invariant.center_ok. cbn. exact Hsame.
      * match goal with
        | |- context [MapProxy.areaTransition cfg vsize ?a ?p ?t] =>
            destruct (areaTransition_shape cfg vsize a p t)
              as (change & m' & -> & _ & _)
        end.
        reflexivity.
Qed.

Lemma reachable_invariants_witness :
  Invariant.center_ok Example.cfg Example.centred_15_9 /\
  Invariant.store_ok Example.cfg (MapProxy.mapAreaDatas Example.centred_15_9).
Proof.
  apply (reachable_invariants Example.cfg Example.vsize).
  apply Invariant.reach_setCurCenterPoint, Invariant.reach_new.
Defined.

(** ** Descriptors: fuzzy equality and the throttle over many calls *)

(** X17: [fuzzyEquals] holds exactly when the area coordinates differ by at
    most the variance in x and in y; it is therefore symmetric in the two
    descriptors, and it is false against [null]. *)
Theorem fuzzyEquals_spec (a b : MapAreaData.t) (variance : Z) :
  (MapAreaData.fuzzyEquals a (Some b) variance = true <->
   Z.abs (MapAreaData.x a - MapAreaData.x b) <= variance /\
   Z.abs (MapAreaData.y a - MapAreaData.y b) <= variance) /\
  MapAreaData.fuzzyEquals a (Some b) variance
  = MapAreaData.fuzzyEquals b (Some a) variance /\
  MapAreaData.fuzzyEquals a None variance = false.
Proof.
  assert (Hiff : forall a b,
            MapAreaData.fuzzyEquals a (Some b) variance = true <->
            Z.abs (MapAreaData.x a - MapAreaData.x b) <= variance /\
            Z.abs (MapAreaData.y a - MapAreaData.y b) <= variance).
  { intros a' b'. unfold MapAreaData.fuzzyEquals.
    destruct ((MapAreaData.x a' - variance <=? MapAreaData.x b')
              && (MapAreaData.x b' <=? MapAreaData.x a' + variance)) eqn:Hx.
    - rewrite Bool.andb_true_iff, !Z.leb_le in *. lia.
    - apply Bool.andb_false_iff in Hx.
      rewrite !Z.leb_gt in Hx. split; [discriminate | lia]. }
  split; [apply Hiff |]. split; [| reflexivity].
  destruct (MapAreaData.fuzzyEquals a (Some b) variance) eqn:Hab;
    destruct (MapAreaData.fuzzyEquals b (Some a) variance) eqn:Hba;
    try reflexivity.
  - apply Hiff in Hab. assert (Hba' : MapAreaData.fuzzyEquals b (Some a) variance = true)
      by (apply Hiff; lia). congruence.
  - apply Hiff in Hba. assert (Hab' : MapAreaData.fuzzyEquals a (Some b) variance = true)
      by (apply Hiff; lia). congruence.
Qed.

Lemma last_cons_default {A : Type} (a : A) (l : list A) (d d' : A) :
  List.last (a :: l) d = List.last (a :: l) d'.
Proof.
  revert a. induction l as [| b l IH]; intros a; [reflexivity |].
  change (List.last (b :: l) d = List.last (b :: l) d'). apply IH.
Qed.

Lemma runQueries_head (ts : list Z) (d : MapAreaData.t) :
  let r := Invariant.runQueries ts d in
  (forall a, head r.1 = Some a ->
             a - MapAreaData.qryStartTime d >= MapAreaData.MAX_TIME) /\
  (forall i a b, r.1 !! i = Some a -> r.1 !! S i = Some b ->
                 b - a >= MapAreaData.MAX_TIME) /\
  (forall a, a ∈ r.1 -> a ∈ ts) /\
  MapAreaData.qryStartTime r.2 = List.last r.1 (MapAreaData.qryStartTime d).
Proof.
  cbv zeta. revert d. induction ts as [| nowTime ts IH]; intros d.
  - cbn. repeat split; try discriminate; tauto.
  - cbn [Invariant.runQueries].
    unfold MapAreaData.checkAndUpdateQryTime.
    destruct (Z.geb_spec (nowTime - MapAreaData.qryStartTime d) MapAreaData.MAX_TIME)
      as [Hge | Hlt].
    + specialize (IH (MapAreaData.set_qryStartTime nowTime d)).
      destruct (Invariant.runQueries ts (MapAreaData.set_qryStartTime nowTime d))
        as [permitted d''].
      cbn [fst snd MapAreaData.set_qryStartTime MapAreaData.qryStartTime] in *.
      destruct IH as (Hhd & Hadj & Hin & Hlast).
      split; [intros a [= <-]; lia |]. split; [| split].
      * intros [| i] a b Ha Hb; cbn in Ha, Hb.
        -- injection Ha as <-. apply Hhd. now destruct permitted.
        -- exact (Hadj i a b Ha Hb).
      * intros a Ha. apply elem_of_cons in Ha as [-> | Ha];
          apply elem_of_cons; [now left | right; now apply Hin].
      * rewrite Hlast. destruct permitted as [| p ps]; [reflexivity |].
        change (List.last (nowTime :: p :: ps) (MapAreaData.qryStartTime d))
          with (List.last (p :: ps) (MapAreaData.qryStartTime d)).
        apply last_cons_default.
    + specialize (IH d).
      destruct (Invariant.runQueries ts d) as [permitted d''].
      cbn [fst snd] in *. destruct IH as (Hhd & Hadj & Hin & Hlast).
      split; [exact Hhd |]. split; [exact Hadj |]. split; [| exact Hlast].
      intros a Ha. apply elem_of_cons. right. now apply Hin.
Qed.

(** X18: however often and at whatever times the throttle check of one
    descriptor is called, the calls it permits are spaced by at least
    10000 ms: the first permitted time is at least 10000 ms after the
    timestamp the descriptor started with, and each later permitted time at
    least 10000 ms after the one before. *)
Theorem runQueries_spacing (ts : list Z) (d : MapAreaData.t) :
  let permitted := (Invariant.runQueries ts d).1 in
  (forall a, head permitted = Some a ->
             a - MapAreaData.qryStartTime d >= 10000) /\
  (forall i a b, permitted !! i = Some a -> permitted !! S i = Some b ->
                 b - a >= 10000).
Proof.
  destruct (runQueries_head ts d) as (Hhd & Hadj & _). now split.
Qed.

Lemma runQueries_spacing_witness :
  (Invariant.runQueries [1700000012000; 1700000017000; 1700000023000] Example.queried).1
  = [1700000012000; 1700000023000] /\
  1700000023000 - 1700000012000 >= 10000.
Proof.
  split; [reflexivity |].
  destruct (runQueries_spacing [1700000012000; 1700000017000; 1700000023000]
              Example.queried) as [_ Hadj].
  apply (Hadj 0%nat); reflexivity.
Defined.

(** * The resource table and the position tags *)

Lemma getResData_initMapResConfig (w : Z) (entries : list (Z * Z)) (i : nat) :
  MapProxy.getResData (Z.of_nat i) (MapProxy.initMapResConfig w entries).1
  = MapProxy.makeResData w i <$> entries !! i.
Proof.
  unfold MapProxy.getResData, MapProxy.initMapResConfig. cbn [fst].
  replace (0 <=? Z.of_nat i) with true by (symmetry; apply Z.leb_le; lia).
  rewrite Nat2Z.id. apply list_lookup_imap.
Qed.

(** X19: after [initMapResConfig] with the map width, the table has one
    entry per list element; [getResData] of the id of a valid cell that the
    list covers returns the entry with that id, the type and level listed
    for it and the coordinates of that very cell; an id that is negative or
    beyond the list gives [undefined]; and the system city table holds
    exactly the entries of type 51. *)
Theorem initMapResConfig_spec (cfg : MapUtil.Config) (entries : list (Z * Z)) :
  let w := Size.width (MapUtil.mapSize cfg) in
  let datas := (MapProxy.initMapResConfig w entries).1 in
  let cities := (MapProxy.initMapResConfig w entries).2 in
  length datas = length entries /\
  (forall (p : Vec2.t Z) (entry : Z * Z),
     MapUtil.isVaildCellPoint cfg p = true ->
     let id := MapUtil.getIdByCellPoint cfg (Vec2.x p) (Vec2.y p) in
     entries !! Z.to_nat id = Some entry ->
     MapProxy.getResData id datas
     = Some (MapResData.mk id entry.1 entry.2 (Vec2.x p) (Vec2.y p))) /\
  (forall id, id < 0 \/ Z.of_nat (length entries) <= id ->
              MapProxy.getResData id datas = None) /\
  (forall d, d ∈ cities <-> d ∈ datas /\ MapResData.type d = MapResType.SYS_CITY).
Proof.
  cbv zeta. set (w := Size.width (MapUtil.mapSize cfg)).
  split; [apply length_imap |]. split; [| split].
  - intros [x y] entry Hvalid. cbn [Vec2.x Vec2.y]. intros Hentry.
    unfold MapUtil.isVaildCellPoint in Hvalid. cbn [Vec2.x Vec2.y] in Hvalid.
    rewrite !Bool.andb_true_iff, !Z.leb_le, !Z.ltb_lt in Hvalid.
    destruct Hvalid as [[[Hx1 Hx2] Hy1] Hy2]. fold w in Hx2.
    unfold MapUtil.getIdByCellPoint in *. fold w in Hentry |- *.
    assert (Hid : 0 <= x + y * w) by nia.
    rewrite <- (Z2Nat.id (x + y * w)) at 1 by exact Hid.
    rewrite getResData_initMapResConfig, Hentry. cbn [fmap option_fmap option_map].
    unfold MapProxy.makeResData. rewrite Z2Nat.id by exact Hid.
    destruct (point_of_id w x y) as [-> ->]; [lia | lia | reflexivity].
  - intros id [Hneg | Hbig]; unfold MapProxy.getResData.
    + replace (0 <=? id) with false by (symmetry; apply Z.leb_gt; lia). reflexivity.
    + destruct (0 <=? id) eqn:Hid; [| reflexivity].
      apply lookup_ge_None. unfold MapProxy.initMapResConfig. cbn [fst].
      rewrite length_imap. lia.
  - intros d. unfold MapProxy.initMapResConfig. cbn [fst snd].
    rewrite !list_elem_of_In, filter_In, Z.eqb_eq. reflexivity.
Qed.

Lemma initMapResConfig_spec_witness :
  MapProxy.getResData (MapUtil.getIdByCellPoint Example.cfg 1 1)
    (MapProxy.initMapResConfig 20 (replicate 30 (52, 3))).1
  = Some (MapResData.mk 21 52 3 1 1).
Proof.
  destruct (initMapResConfig_spec Example.cfg (replicate 30 (52, 3)))
    as (_ & Hget & _).
  apply (Hget (v2 1 1) (52, 3)); reflexivity.
Defined.

(** X20: [getSysCityResData] returns the first system city, in table
    order, whose range (3 from level 8, 2 from level 5, else 1, in x and in
    y) covers the cell, and [null] exactly when no city of the table covers
    it; in particular every cell within the range of a listed city gets
    some city. *)
Theorem getSysCityResData_spec (x y : Z) (cities : list MapResData.t) :
  let covers (r : MapResData.t) :=
    Z.abs (x - MapResData.x r) <= sysCityDis (MapResData.level r) /\
    Z.abs (y - MapResData.y r) <= sysCityDis (MapResData.level r) in
  (forall r, MapProxy.getSysCityResData x y cities = Some r ->
     covers r /\
     exists before after,
       cities = before ++ r :: after /\ Forall (fun r' => ~ covers r') before) /\
  (MapProxy.getSysCityResData x y cities = None <->
   Forall (fun r => ~ covers r) cities) /\
  (forall r, r ∈ cities -> covers r ->
             is_Some (MapProxy.getSysCityResData x y cities)).
Proof.
  cbv zeta.
  assert (Hcov : forall r, MapProxy.inSysCityRange x y r = true <->
            Z.abs (x - MapResData.x r) <= sysCityDis (MapResData.level r) /\
            Z.abs (y - MapResData.y r) <= sysCityDis (MapResData.level r)).
  { intros r. unfold MapProxy.inSysCityRange.
    rewrite Bool.andb_true_iff, !Z.geb_le. reflexivity. }
  unfold MapProxy.getSysCityResData.
  assert (Hnone : List.find (MapProxy.inSysCityRange x y) cities = None <->
            Forall (fun r =>
              ~ (Z.abs (x - MapResData.x r) <= sysCityDis (MapResData.level r) /\
                 Z.abs (y - MapResData.y r) <= sysCityDis (MapResData.level r)))
              cities).
  { induction cities as [| c cities IH]; cbn [List.find].
    - split; [intros _; apply Forall_nil_2 | reflexivity].
    - destruct (MapProxy.inSysCityRange x y c) eqn:Hc.
      + split; [discriminate |]. intros HF. apply Forall_cons in HF as [Hn _].
        apply Hcov in Hc. now destruct Hn.
      + rewrite IH. split.
        * intros HF. apply Forall_cons. split; [| exact HF].
          intros Hc'. apply Hcov in Hc'. congruence.
        * intros HF. now apply Forall_cons in HF as [_ HF]. }
  split; [| split; [exact Hnone |]].
  - induction cities as [| c cities IH]; intros r; cbn [List.find]; [discriminate |].
    destruct (MapProxy.inSysCityRange x y c) eqn:Hc.
    + intros [= <-]. split; [now apply Hcov |].
      exists [], cities. split; [reflexivity | apply Forall_nil_2].
    + intros Hfind.
      assert (Hnone' : List.find (MapProxy.inSysCityRange x y) cities = None <->
                Forall (fun r =>
                  ~ (Z.abs (x - MapResData.x r) <= sysCityDis (MapResData.level r) /\
                     Z.abs (y - MapResData.y r) <= sysCityDis (MapResData.level r)))
                  cities).
      { split.
        - intros Hn. rewrite Hn in Hfind. discriminate.
        - intros HF. exfalso.
          apply List.find_some in Hfind as [Hin Hr].
          rewrite Forall_forall in HF. apply list_elem_of_In in Hin.
          apply (HF r Hin). now apply Hcov. }
      destruct (IH Hnone' r Hfind) as (Hr & before & after & -> & Hbefore).
      split; [exact Hr |].
      exists (c :: before), after. split; [reflexivity |].
      apply Forall_cons. split; [| exact Hbefore].
      intros Hc'. apply Hcov in Hc'. congruence.
  - intros r Hin Hr.
    destruct (List.find (MapProxy.inSysCityRange x y) cities) eqn:Hfind; [eauto |].
    pose proof (proj1 Hnone eq_refl) as HF. rewrite Forall_forall in HF.
    now destruct (HF r Hin).
Qed.

Lemma getSysCityResData_spec_witness :
  let cities := [MapResData.mk 210 51 8 10 10; MapResData.mk 215 51 1 15 10] in
  is_Some (MapProxy.getSysCityResData 13 12 cities).
Proof.
  cbv zeta.
  destruct (getSysCityResData_spec 13 12
              [MapResData.mk 210 51 8 10 10; MapResData.mk 215 51 1 15 10])
    as (_ & _ & Hsome).
  apply (Hsome (MapResData.mk 210 51 8 10 10)).
  - apply elem_of_cons. now left.
  - cbn. lia.
Defined.

(** ** Position tags *)

Lemma isPosTag_true (x y : Z) (tags : list MapTagPos.t) :
  MapProxy.isPosTag x y tags = true <->
  exists tag, tag ∈ tags /\ MapTagPos.x tag = x /\ MapTagPos.y tag = y.
Proof.
  unfold MapProxy.isPosTag. rewrite existsb_exists.
  setoid_rewrite list_elem_of_In. setoid_rewrite Bool.andb_true_iff.
  setoid_rewrite Z.eqb_eq. reflexivity.
Qed.

Lemma addMapPosTag_ok (x y : Z) (tags : list MapTagPos.t) (b : bool) :
  fold_left
    (fun ok tag => if (MapTagPos.x tag =? x) && (MapTagPos.y tag =? y)
                   then false else ok)
    tags b
  = b && negb (MapProxy.isPosTag x y tags).
Proof.
  revert b. induction tags as [| tag tags IH]; intros b; cbn.
  - now rewrite Bool.andb_true_r.
  - rewrite IH. destruct ((MapTagPos.x tag =? x) && (MapTagPos.y tag =? y)); cbn;
      [now rewrite Bool.andb_false_r | reflexivity].
Qed.

Lemma addMapPosTag_eq (x y : Z) (name : string) (tags : list MapTagPos.t) :
  MapProxy.addMapPosTag x y name tags
  = if MapProxy.isPosTag x y tags then tags else tags ++ [MapTagPos.mk x y name].
Proof.
  unfold MapProxy.addMapPosTag. rewrite addMapPosTag_ok. cbn.
  now destruct (MapProxy.isPosTag x y tags).
Qed.

(** X21: after [addMapPosTag x y name] the position is tagged; the queries
    for every other position answer as before; when the position was tagged
    already the tag list is left as it is, so the old name is kept and the
    new one is dropped; otherwise the new tag is appended at the end. *)
Theorem addMapPosTag_spec (x y : Z) (name : string) (tags : list MapTagPos.t) :
  let tags' := MapProxy.addMapPosTag x y name tags in
  MapProxy.isPosTag x y tags' = true /\
  (forall x' y', (x', y') <> (x, y) ->
                 MapProxy.isPosTag x' y' tags' = MapProxy.isPosTag x' y' tags) /\
  (MapProxy.isPosTag x y tags = true -> tags' = tags) /\
  (MapProxy.isPosTag x y tags = false -> tags' = tags ++ [MapTagPos.mk x y name]).
Proof.
  cbv zeta. rewrite addMapPosTag_eq.
  destruct (MapProxy.isPosTag x y tags) eqn:Htag.
  - split; [exact Htag |]. split; [reflexivity |]. split; [reflexivity | discriminate].
  - split; [| split; [| split; [discriminate | reflexivity]]].
    + apply isPosTag_true. exists (MapTagPos.mk x y name).
      split; [apply elem_of_app; right; apply list_elem_of_singleton; reflexivity |].
      now split.
    + intros x' y' Hne. unfold MapProxy.isPosTag.
      rewrite existsb_app. cbn.
      destruct (Z.eqb_spec x x'), (Z.eqb_spec y y'); cbn;
        rewrite ?Bool.orb_false_r; try reflexivity.
      subst. now destruct Hne.
Qed.

(** X22: after [removeMapPosTag x y] the position is not tagged; the tags
    at every other position stay, in their order; and removing a tag that
    was just added at a position not tagged before gives the old list
    back. *)
Theorem removeMapPosTag_spec (x y : Z) (tags : list MapTagPos.t) :
  let tags' := MapProxy.removeMapPosTag x y tags in
  MapProxy.isPosTag x y tags' = false /\
  (forall x' y', (x', y') <> (x, y) ->
                 MapProxy.isPosTag x' y' tags' = MapProxy.isPosTag x' y' tags) /\
  (forall tag, tag ∈ tags' <->
               tag ∈ tags /\ (MapTagPos.x tag, MapTagPos.y tag) <> (x, y)) /\
  (forall name, MapProxy.isPosTag x y tags = false ->
                MapProxy.removeMapPosTag x y (MapProxy.addMapPosTag x y name tags)
                = tags).
Proof.
  cbv zeta.
  assert (Hkeep : forall tag,
            negb (MapTagPos.x tag =? x) || negb (y =? MapTagPos.y tag) = true <->
            (MapTagPos.x tag, MapTagPos.y tag) <> (x, y)).
  { intros tag. rewrite Bool.orb_true_iff, !Bool.negb_true_iff, !Z.eqb_neq.
    split; [intros [H | H] [= Hx Hy]; congruence |].
    intros Hne. destruct (Z.eq_dec (MapTagPos.x tag) x) as [Hx | Hx]; [| now left].
    right. intros Hy. apply Hne. congruence. }
  assert (Hin : forall tag, tag ∈ MapProxy.removeMapPosTag x y tags <->
            tag ∈ tags /\ (MapTagPos.x tag, MapTagPos.y tag) <> (x, y)).
  { intros tag. unfold MapProxy.removeMapPosTag.
    rewrite !list_elem_of_In, filter_In, Hkeep. reflexivity. }
  split; [| split; [| split; [exact Hin |]]].
  - apply Bool.not_true_is_false. intros Htag.
    apply isPosTag_true in Htag as (tag & Htag & Hx & Hy).
    apply Hin in Htag as [_ Hne]. apply Hne. congruence.
  - intros x' y' Hne.
    destruct (MapProxy.isPosTag x' y' tags) eqn:Htag.
    + apply isPosTag_true in Htag as (tag & Htag & Hx & Hy).
      apply isPosTag_true. exists tag. split; [| now split].
      apply Hin. split; [exact Htag |]. congruence.
    + apply Bool.not_true_is_false. intros Htag'.
      apply isPosTag_true in Htag' as (tag & Htag' & Hx & Hy).
      apply Hin in Htag' as [Htag' _].
      assert (MapProxy.isPosTag x' y' tags = true)
        by (apply isPosTag_true; eauto). congruence.
  - intros name Hfree. rewrite addMapPosTag_eq, Hfree.
    unfold MapProxy.removeMapPosTag. rewrite List.filter_app. cbn.
    rewrite !Z.eqb_refl. cbn. rewrite app_nil_r.
    apply List.forallb_filter_id, forallb_forall. intros tag Htag.
    apply Hkeep. intros [= Hx Hy].
    assert (MapProxy.isPosTag x y tags = true).
    { apply isPosTag_true. exists tag. split; [now apply list_elem_of_In | now split]. }
    congruence.
Qed.

Lemma removeMapPosTag_spec_witness :
  MapProxy.removeMapPosTag 3 4
    (MapProxy.addMapPosTag 3 4 "camp" [MapTagPos.mk 1 1 "home"])
  = [MapTagPos.mk 1 1 "home"].
Proof.
  destruct (removeMapPosTag_spec 3 4 [MapTagPos.mk 1 1 "home"])
    as (_ & _ & _ & Hback).
  apply Hback. reflexivity.
Defined.

(** X23: a tag list in which no two tags share a position stays so under
    [addMapPosTag] and [removeMapPosTag]. *)
Theorem posTags_positions_NoDup (x y : Z) (name : string) (tags : list MapTagPos.t) :
  let positions (l : list MapTagPos.t) :=
    (fun tag => (MapTagPos.x tag, MapTagPos.y tag)) <$> l in
  NoDup (positions tags) ->
  NoDup (positions (MapProxy.addMapPosTag x y name tags)) /\
  NoDup (positions (MapProxy.removeMapPosTag x y tags)).
Proof.
  cbv zeta. intros Hnd. split.
  - rewrite addMapPosTag_eq.
    destruct (MapProxy.isPosTag x y tags) eqn:Htag; [exact Hnd |].
    rewrite fmap_app. apply NoDup_app. split; [exact Hnd |].
    split; [| apply NoDup_singleton].
    intros pos Hpos Hpos'. cbn in Hpos'. apply list_elem_of_singleton in Hpos' as ->.
    apply list_elem_of_fmap in Hpos as (tag & [= Hx Hy] & Hin).
    assert (MapProxy.isPosTag x y tags = true)
      by (apply isPosTag_true; eauto). congruence.
  - unfold MapProxy.removeMapPosTag.
    induction tags as [| tag tags IH]; [exact Hnd |].
    cbn in Hnd. apply NoDup_cons in Hnd as [Hnin Hnd].
    cbn. destruct (negb (MapTagPos.x tag =? x) || negb (y =? MapTagPos.y tag));
      [| now apply IH].
    cbn. apply NoDup_cons. split; [| now apply IH].
    intros Hin. apply Hnin.
    apply list_elem_of_fmap in Hin as (tag' & Heq & Hin).
    apply list_elem_of_fmap. exists tag'. split; [exact Heq |].
    apply list_elem_of_In in Hin. apply filter_In in Hin as [Hin _].
    now apply list_elem_of_In.
Qed.

Lemma addMapPosTag_spec_witness :
  MapProxy.addMapPosTag 1 1 "farm" [MapTagPos.mk 1 1 "home"]
  = [MapTagPos.mk 1 1 "home"].
Proof.
  destruct (addMapPosTag_spec 1 1 "farm" [MapTagPos.mk 1 1 "home"])
    as (_ & _ & Hsame & _).
  apply Hsame. reflexivity.
Defined.

Lemma posTags_positions_NoDup_witness :
  NoDup ((fun tag => (MapTagPos.x tag, MapTagPos.y tag))
           <$> MapProxy.addMapPosTag 3 4 "camp" [MapTagPos.mk 1 1 "home"]).
Proof.
  apply (posTags_positions_NoDup 3 4 "camp" [MapTagPos.mk 1 1 "home"]).
  cbn. apply NoDup_singleton.
Defined.

(** * Camera and touch handling *)

Lemma clamp_spec (max v : Q) :
  ((0 <= max)%Q ->
   (- max <= MapLogic.clamp max v)%Q /\ (MapLogic.clamp max v <= max)%Q) /\
  ((- max <= v)%Q -> (v <= max)%Q -> (MapLogic.clamp max v == v)%Q) /\
  ((max < 0)%Q -> MapLogic.clamp max v = max).
Proof.
  unfold MapLogic.clamp, Math_min, Math_max.
  destruct (Qle_bool (- max) v) eqn:H1.
  - destruct (Qle_bool max v) eqn:H2.
    + apply Qle_bool_iff in H1, H2.
      split; [intros; split; lra |]. split; [intros; lra | reflexivity].
    + assert (H2' : ~ (max <= v)%Q) by (rewrite <- Qle_bool_iff; congruence).
      apply Qle_bool_iff in H1.
      split; [intros; split; lra |]. split; [reflexivity | intros; lra].
  - assert (H1' : ~ (- max <= v)%Q) by (rewrite <- Qle_bool_iff; congruence).
    destruct (Qle_bool max (- max)) eqn:H2.
    + apply Qle_bool_iff in H2.
      split; [intros; split; lra |]. split; [intros; lra | reflexivity].
    + assert (H2' : ~ (max <= - max)%Q) by (rewrite <- Qle_bool_iff; congruence).
      split; [intros; split; lra |]. split; [intros; lra | intros; lra].
Qed.

(** X24: [onTouchMove] does nothing before a touch began or for a zero
    delta.  Otherwise it marks the touch as a move, moves the camera by
    minus the delta and clamps it: with non-negative bounds the camera ends
    within [-maxMapX, maxMapX] x [-maxMapY, maxMapY]; and it leaves the
    proxy centred on the cell under the new camera position. *)
Theorem onTouchMove_spec (cfg : MapUtil.Config) (vsize : Size.t Q)
    (delta : Vec2.t Q) (this : MapLogic.t) (proxy : MapProxy.t) :
  let r := MapLogic.onTouchMove cfg vsize delta this proxy in
  let camera := MapLogic.cameraPosition r.1.1 in
  (MapLogic.isTouch this = false \/
   ((Vec2.x delta == 0)%Q /\ (Vec2.y delta == 0)%Q) ->
   r = (this, proxy, [])) /\
  (MapLogic.isTouch this = true ->
   ~ ((Vec2.x delta == 0)%Q /\ (Vec2.y delta == 0)%Q) ->
   MapLogic.isTouch r.1.1 = true /\ MapLogic.isMove r.1.1 = true /\
   camera
   = v2 (MapLogic.clamp (MapLogic.maxMapX this)
           (Vec2.x (MapLogic.cameraPosition this) - Vec2.x delta)%Q)
        (MapLogic.clamp (MapLogic.maxMapY this)
           (Vec2.y (MapLogic.cameraPosition this) - Vec2.y delta)%Q) /\
   ((0 <= MapLogic.maxMapX this)%Q ->
    (- MapLogic.maxMapX this <= Vec2.x camera)%Q /\
    (Vec2.x camera <= MapLogic.maxMapX this)%Q) /\
   ((0 <= MapLogic.maxMapY this)%Q ->
    (- MapLogic.maxMapY this <= Vec2.y camera)%Q /\
    (Vec2.y camera <= MapLogic.maxMapY this)%Q) /\
   MapProxy.centerDiffers (MapProxy.curCenterPoint r.1.2)
     (MapUtil.mapPixelToCellPoint cfg camera) = false).
Proof.
  cbv zeta. unfold MapLogic.onTouchMove.
  destruct (MapLogic.isTouch this).
  - destruct (Qeq_bool (Vec2.x delta) 0) eqn:Hx;
      destruct (Qeq_bool (Vec2.y delta) 0) eqn:Hy; cbn [negb orb].
    1: { apply Qeq_bool_iff in Hx, Hy. split; [reflexivity | tauto]. }
    all: split;
      [ intros [Hf | [Hx' Hy']]; [discriminate |];
        apply Qeq_bool_iff in Hx', Hy'; congruence |];
      intros _ _; unfold MapLogic.setCenterMapCellPoint;
      cbn [fst snd MapLogic.isTouch MapLogic.isMove MapLogic.cameraPosition
           Vec2.x Vec2.y];
      split; [reflexivity |]; split; [reflexivity |]; split; [reflexivity |];
      split; [apply clamp_spec |]; split; [apply clamp_spec |];
      apply setCurCenterPoint_center.
  - split; [reflexivity | discriminate].
Qed.

Lemma onTouchMove_spec_witness :
  let this := MapLogic.onTouchBegan
                (MapLogic.setTiledMap Example.vsize Example.map
                   (MapLogic.mk false false (v2 0%Q 0%Q) 0 0)) in
  let r := MapLogic.onTouchMove Example.cfg Example.vsize (v2 (-3000)%Q 10%Q)
             this MapProxy.new in
  MapLogic.cameraPosition r.1.1 = v2 (3984 # 2)%Q (-10)%Q /\
  MapProxy.centerDiffers (MapProxy.curCenterPoint r.1.2)
    (MapUtil.mapPixelToCellPoint Example.cfg (MapLogic.cameraPosition r.1.1)) = false.
Proof.
  cbv zeta. split; [vm_compute; reflexivity |].
  destruct (onTouchMove_spec Example.cfg Example.vsize (v2 (-3000)%Q 10%Q)
              (MapLogic.onTouchBegan
                 (MapLogic.setTiledMap Example.vsize Example.map
                    (MapLogic.mk false false (v2 0%Q 0%Q) 0 0)))
              MapProxy.new) as [_ Hmove].
  apply Hmove.
  - reflexivity.
  - intros [Hx _]. vm_compute in Hx. discriminate Hx.
Defined.

Lemma onTouchMove_isMove (cfg : MapUtil.Config) (vsize : Size.t Q)
    (delta : Vec2.t Q) (this : MapLogic.t) (proxy : MapProxy.t) :
  MapLogic.isTouch this = true ->
  ~ ((Vec2.x delta == 0)%Q /\ (Vec2.y delta == 0)%Q) ->
  MapLogic.isMove (MapLogic.onTouchMove cfg vsize delta this proxy).1.1 = true.
Proof.
  intros Htouch Hdelta. unfold MapLogic.onTouchMove. rewrite Htouch.
  destruct (Qeq_bool (Vec2.x delta) 0) eqn:Hx;
    destruct (Qeq_bool (Vec2.y delta) 0) eqn:Hy; cbn [negb orb];
    try reflexivity.
  apply Qeq_bool_iff in Hx, Hy. now destruct Hdelta.
Qed.

(** X25: a touch that begins and ends without a move (or with zero-delta
    moves only) emits one touchMap notification carrying the cell under the
    touch and the map pixel point of that cell's centre; a touch with a
    non-zero move in between emits moveMap instead; either way both flags
    are cleared and the camera is where the moves left it, and moves that
    arrive after the end or after a cancel are ignored. *)
Theorem touch_gesture (cfg : MapUtil.Config) (vsize : Size.t Q)
    (map : MapUtil.TiledMap) (cuit_anchorX cuit_anchorY : Q)
    (touchLocation delta : Vec2.t Q) (this : MapLogic.t) (proxy : MapProxy.t) :
  let began := MapLogic.onTouchBegan this in
  let finish := MapLogic.onTouchEnd cfg vsize map cuit_anchorX cuit_anchorY touchLocation in
  let cell :=
    MapUtil.worldPixelToMapCellPoint cfg
      (MapLogic.viewPointToWorldPoint vsize map cuit_anchorX cuit_anchorY
         touchLocation began) in
  (finish began).2 = [MapLogic.touchMap cell (MapUtil.mapCellToPixelPoint cfg cell)] /\
  (finish (MapLogic.onTouchMove cfg vsize (v2 0%Q 0%Q) began proxy).1.1).2
  = (finish began).2 /\
  (~ ((Vec2.x delta == 0)%Q /\ (Vec2.y delta == 0)%Q) ->
   (finish (MapLogic.onTouchMove cfg vsize delta began proxy).1.1).2
   = [MapLogic.moveMap]) /\
  (forall s, MapLogic.isTouch (finish s).1 = false /\
             MapLogic.isMove (finish s).1 = false /\
             MapLogic.cameraPosition (finish s).1 = MapLogic.cameraPosition s) /\
  (forall s, MapLogic.onTouchMove cfg vsize delta (finish s).1 proxy
             = ((finish s).1, proxy, []) /\
             MapLogic.onTouchMove cfg vsize delta (MapLogic.onTouchCancel s) proxy
             = (MapLogic.onTouchCancel s, proxy, [])).
Proof.
  cbv zeta. split; [reflexivity |]. split; [reflexivity |].
  split; [| split; [intros s; repeat split | intros s; split; reflexivity]].
  intros Hdelta.
  pose proof (onTouchMove_isMove cfg vsize delta (MapLogic.onTouchBegan this)
                proxy eq_refl Hdelta) as Hmoved.
  unfold MapLogic.onTouchEnd. cbn [MapLogic.isMove snd].
  now rewrite Hmoved.
Qed.

Lemma touch_gesture_witness :
  let began := MapLogic.onTouchBegan
                 (MapLogic.setTiledMap Example.vsize Example.map
                    (MapLogic.mk false false (v2 0%Q 0%Q) 0 0)) in
  (MapLogic.onTouchEnd Example.cfg Example.vsize Example.map (1 # 2) (1 # 2)
     (v2 568%Q 320%Q)
     (MapLogic.onTouchMove Example.cfg Example.vsize (v2 5%Q 0%Q) began
        MapProxy.new).1.1).2
  = [MapLogic.moveMap].
Proof.
  cbv zeta.
  destruct (touch_gesture Example.cfg Example.vsize Example.map (1 # 2) (1 # 2)
              (v2 568%Q 320%Q) (v2 5%Q 0%Q)
              (MapLogic.setTiledMap Example.vsize Example.map
                 (MapLogic.mk false false (v2 0%Q 0%Q) 0 0))
              MapProxy.new) as (_ & _ & Hdrag & _).
  apply Hdrag. intros [Hx _]. vm_compute in Hx. discriminate Hx.
Defined.

(** X26: [scrollToMapPoint] leaves the proxy centred on the cell asked
    for, whatever the clamping does to the camera; the camera goes to the
    map pixel point of the cell clamped to the bounds, which is that pixel
    point itself when it lies within them, and with non-negative bounds the
    camera ends within them; the touch flags are not touched. *)
Theorem scrollToMapPoint_spec (cfg : MapUtil.Config) (vsize : Size.t Q)
    (point : Vec2.t Z) (this : MapLogic.t) (proxy : MapProxy.t) :
  let r := MapLogic.scrollToMapPoint cfg vsize point this proxy in
  let camera := MapLogic.cameraPosition r.1.1 in
  let pixelPoint := MapUtil.mapCellToPixelPoint cfg point in
  MapProxy.centerDiffers (MapProxy.curCenterPoint r.1.2) point = false /\
  r.1.2 = (MapProxy.setCurCenterPoint cfg vsize point pixelPoint proxy).1.2 /\
  camera = MapLogic.toCameraPoint cfg point this /\
  ((0 <= MapLogic.maxMapX this)%Q ->
   (- MapLogic.maxMapX this <= Vec2.x camera)%Q /\
   (Vec2.x camera <= MapLogic.maxMapX this)%Q) /\
  ((0 <= MapLogic.maxMapY this)%Q ->
   (- MapLogic.maxMapY this <= Vec2.y camera)%Q /\
   (Vec2.y camera <= MapLogic.maxMapY this)%Q) /\
  ((- MapLogic.maxMapX this <= Vec2.x pixelPoint)%Q ->
   (Vec2.x pixelPoint <= MapLogic.maxMapX this)%Q ->
   (- MapLogic.maxMapY this <= Vec2.y pixelPoint)%Q ->
   (Vec2.y pixelPoint <= MapLogic.maxMapY this)%Q ->
   (Vec2.x camera == Vec2.x pixelPoint)%Q /\ (Vec2.y camera == Vec2.y pixelPoint)%Q) /\
  MapLogic.isTouch r.1.1 = MapLogic.isTouch this /\
  MapLogic.isMove r.1.1 = MapLogic.isMove this.
Proof.
  cbv zeta. unfold MapLogic.scrollToMapPoint, MapLogic.setCenterMapCellPoint,
    MapLogic.toCameraPoint.
  cbn [fst snd MapLogic.cameraPosition MapLogic.isTouch MapLogic.isMove Vec2.x Vec2.y].
  split; [apply setCurCenterPoint_center |]. split; [reflexivity |].
  split; [reflexivity |].
  split; [apply clamp_spec |]. split; [apply clamp_spec |].
  split; [| split; reflexivity].
  intros Hx1 Hx2 Hy1 Hy2. split; apply clamp_spec; assumption.
Qed.

Lemma scrollToMapPoint_spec_witness :
  let this := MapLogic.setTiledMap Example.vsize Example.map
                (MapLogic.mk false false (v2 0%Q 0%Q) 0 0) in
  let r := MapLogic.scrollToMapPoint Example.cfg Example.vsize (v2 15 9) this
             MapProxy.new in
  (Vec2.x (MapLogic.cameraPosition r.1.1) == 768)%Q /\
  (Vec2.y (MapLogic.cameraPosition r.1.1) == -320)%Q.
Proof.
  cbv zeta.
  destruct (scrollToMapPoint_spec Example.cfg Example.vsize (v2 15 9)
              (MapLogic.setTiledMap Example.vsize Example.map
                 (MapLogic.mk false false (v2 0%Q 0%Q) 0 0))
              MapProxy.new) as (_ & _ & _ & _ & _ & Hin & _).
  destruct Hin as [Hx Hy]; try (vm_compute; discriminate).
  split; [rewrite Hx | rewrite Hy]; reflexivity.
Defined.

(** * Two consequences for users of the cache *)

Lemma setCurCenterPoint_lookup (cfg : MapUtil.Config) (vsize : Size.t Q)
    (point : Vec2.t Z) (pixelPoint : Vec2.t Q) (this : MapProxy.t)
    (j : Z) (d : MapAreaData.t) :
  MapProxy.mapAreaDatas this !! j = Some d ->
  MapProxy.mapAreaDatas
    (MapProxy.setCurCenterPoint cfg vsize point pixelPoint this).1.2 !! j = Some d.
Proof.
  intros Hj. unfold MapProxy.setCurCenterPoint.
  destruct (MapProxy.centerDiffers (MapProxy.curCenterPoint this) point);
    [| exact Hj].
  match goal with |- context [if ?b then _ else _] => destruct b end;
    [| exact Hj].
  match goal with
  | |- context [MapProxy.areaTransition cfg vsize ?a ?p ?t] =>
      destruct (areaTransition_shape cfg vsize a p t)
        as (change & m' & -> & Hkeep & _)
  end.
  now apply Hkeep.
Qed.

(** X27: the id filter of the valid nine-grid does not stop a wrap around
    the row end: for every valid area in the first column, the last area
    of the same row (w - 1 columns away) is listed in its nine-grid,
    through the raw neighbour id + w - 1. *)
Theorem get9GridVaildAreaIds_wraps (cfg : MapUtil.Config) (y : Z) :
  let w := Size.width (MapUtil.areaSize cfg) in
  MapUtil.isVaildAreaPoint cfg (v2 0 y) = true ->
  MapUtil.isVaildAreaPoint cfg (v2 (w - 1) y) = true /\
  MapUtil.getIdByAreaPoint cfg (w - 1) y
  ∈ MapUtil.get9GridVaildAreaIds cfg (MapUtil.getIdByAreaPoint cfg 0 y).
Proof.
  cbv zeta. intros Hvalid.
  assert (Hlast : MapUtil.isVaildAreaPoint cfg
                    (v2 (Size.width (MapUtil.areaSize cfg) - 1) y) = true).
  { apply isVaildAreaPoint_spec in Hvalid. apply isVaildAreaPoint_spec.
    cbn [Vec2.x Vec2.y] in *. lia. }
  split; [exact Hlast |].
  apply elem_of_get9GridVaildAreaIds.
  split; [| exact (valid_area_point_id cfg _ Hlast)].
  unfold MapUtil.get9GridAreaIds, MapUtil.getIdByAreaPoint.
  rewrite !elem_of_cons. left. lia.
Qed.

Lemma get9GridVaildAreaIds_wraps_witness :
  MapUtil.getIdByAreaPoint Example.cfg80 9 4
  ∈ MapUtil.get9GridVaildAreaIds Example.cfg80 (MapUtil.getIdByAreaPoint Example.cfg80 0 4).
Proof.
  apply (get9GridVaildAreaIds_wraps Example.cfg80 4). reflexivity.
Defined.

(** X28: the timestamp written by a permitted throttle check is kept by
    later calls of [setCurCenterPoint]: after a check that permitted a
    query of area [id] at time [t], whatever centre change follows, a check
    of the same area less than 10000 ms after [t] is refused and leaves the
    proxy as it is. *)
Theorem throttle_survives_pan (cfg : MapUtil.Config) (vsize : Size.t Q)
    (id t t' : Z) (point : Vec2.t Z) (pixelPoint : Vec2.t Q)
    (this this1 : MapProxy.t) :
  MapProxy.checkAndUpdateQryTimeOf id t this = Some (true, this1) ->
  t' - t < 10000 ->
  let this2 := (MapProxy.setCurCenterPoint cfg vsize point pixelPoint this1).1.2 in
  MapProxy.checkAndUpdateQryTimeOf id t' this2 = Some (false, this2).
Proof.
  intros Hcheck Hsoon this2.
  unfold MapProxy.checkAndUpdateQryTimeOf in Hcheck.
  destruct (MapProxy.mapAreaDatas this !! id) as [d |] eqn:Hd; [| discriminate].
  unfold MapAreaData.checkAndUpdateQryTime in Hcheck.
  destruct (t - MapAreaData.qryStartTime d >=? MapAreaData.MAX_TIME);
    [| discriminate].
  injection Hcheck as <-.
  assert (Hstored : MapProxy.mapAreaDatas this2 !! id
                    = Some (MapAreaData.set_qryStartTime t d)).
  { subst this2. apply setCurCenterPoint_lookup. cbn. apply lookup_insert_eq. }
  unfold MapProxy.checkAndUpdateQryTimeOf. rewrite Hstored.
  unfold MapAreaData.checkAndUpdateQryTime.
  cbn [MapAreaData.qryStartTime MapAreaData.set_qryStartTime].
  replace (t' - t >=? MapAreaData.MAX_TIME) with false
    by (symmetry; rewrite Z.geb_leb; apply Z.leb_gt;
        unfold MapAreaData.MAX_TIME; lia).
  rewrite insert_id by exact Hstored. now destruct this2.
Qed.

Lemma throttle_survives_pan_witness :
  let this := Example.centred_39_36 in
  exists this1,
    MapProxy.checkAndUpdateQryTimeOf 44 1700000000000 this = Some (true, this1) /\
    let this2 := (MapProxy.setCurCenterPoint Example.cfg80 Example.vsize (v2 40 36)
                    (MapUtil.mapCellToPixelPoint Example.cfg80 (v2 40 36)) this1).1.2 in
    MapProxy.checkAndUpdateQryTimeOf 44 1700000004000 this2 = Some (false, this2).
Proof.
  cbv zeta.
  destruct (MapProxy.checkAndUpdateQryTimeOf 44 1700000000000 Example.centred_39_36)
    as [[ok this1] |] eqn:Hcheck; [| vm_compute in Hcheck; discriminate Hcheck].
  assert (Hok : ok = true).
  { vm_compute in Hcheck. now injection Hcheck as <- _. }
  subst ok. exists this1. split; [reflexivity |].
  apply (throttle_survives_pan Example.cfg80 Example.vsize 44 1700000000000
           1700000004000 (v2 40 36) _ Example.centred_39_36 this1 Hcheck).
  reflexivity.
Defined.

(** X29: [clearData] unsets the centre, empties the fetch queue and drops
    every descriptor stored under an array index (an id from 0 to
    2^32 - 2), so the next [getMapAreaData] of such an id builds a fresh
    descriptor with query timestamp 0 (the throttle of the area starts
    over); a descriptor stored under any other key (a negative id, or an id
    from 2^32 - 1 on) is kept as it is, with its timestamp; and the next
    [setCurCenterPoint] returns true. *)
Theorem clearData_resets (cfg : MapUtil.Config) (vsize : Size.t Q)
    (this : MapProxy.t) :
  let cleared := MapProxy.clearData this in
  MapProxy.curCenterPoint cleared = None /\
  MapProxy.curCenterAreaId cleared = -1 /\
  MapProxy.qryAreaIds cleared = [] /\
  (forall id, 0 <= id < 4294967295 ->
     MapProxy.mapAreaDatas cleared !! id = None /\
     (MapProxy.getMapAreaData cfg id cleared).1 = MapProxy.makeAreaData cfg id /\
     MapAreaData.qryStartTime (MapProxy.getMapAreaData cfg id cleared).1 = 0) /\
  (forall id, id < 0 \/ 4294967295 <= id ->
     MapProxy.mapAreaDatas cleared !! id = MapProxy.mapAreaDatas this !! id) /\
  (forall point pixelPoint,
     (MapProxy.setCurCenterPoint cfg vsize point pixelPoint cleared).1.1 = true).
Proof.
  cbv zeta. split; [reflexivity |]. split; [reflexivity |]. split; [reflexivity |].
  assert (Hstore : MapProxy.mapAreaDatas (MapProxy.clearData this)
                   = filter (fun kv : Z * MapAreaData.t =>
                               kv.1 < 0 \/ kv.1 < 0 \/ 4294967295 <= kv.1)
                       (MapProxy.mapAreaDatas this)) by reflexivity.
  split; [| split].
  - intros id Hid.
    assert (Hnone : MapProxy.mapAreaDatas (MapProxy.clearData this) !! id = None).
    { rewrite Hstore. apply map_lookup_filter_None. right.
      intros d _. cbn. lia. }
    split; [exact Hnone |].
    unfold MapProxy.getMapAreaData. rewrite Hnone. now split.
  - intros id Hid. rewrite Hstore.
    destruct (MapProxy.mapAreaDatas this !! id) as [d |] eqn:Hd.
    + apply map_lookup_filter_Some. split; [exact Hd |]. cbn. lia.
    + apply map_lookup_filter_None. now left.
  - intros point pixelPoint.
    unfold MapProxy.setCurCenterPoint, MapProxy.clearData.
    cbn [MapProxy.curCenterPoint MapProxy.centerDiffers MapProxy.curCenterAreaId].
    cbn [Z.eqb orb].
    match goal with
    | |- context [MapProxy.areaTransition cfg vsize ?a ?p ?t] =>
        destruct (MapProxy.areaTransition cfg vsize a p t)
    end.
    reflexivity.
Qed.

Lemma clearData_resets_witness :
  (MapProxy.getMapAreaData Example.cfg 4 (MapProxy.clearData Example.centred_15_9)).1
  = MapProxy.makeAreaData Example.cfg 4.
Proof.
  destruct (clearData_resets Example.cfg Example.vsize Example.centred_15_9)
    as (_ & _ & _ & Hfresh & _).
  destruct (Hfresh 4) as (_ & Hdata & _); [lia | exact Hdata].
Defined.
